(** * haystack: the MRKL agent loop and the service container

    A shallow embedding of
      - [haystack/nodes/prompt/mrkl_agent.py]  ([MRKLAgent.run],
        [MRKLAgent.get_action_and_input]) and
      - [haystack/preview/components/builders/service_container.py]
        ([ServiceContainer.extract_description], [generate_description],
        [generate_descriptions]),
    together with the properties of the design document that concern them.

    Conventions.  A Python [str] is a [string] whose characters are the code
    points below 256.  A raised exception is the [Raise] case of
    [result].  A [dict] keyed by strings whose order is not observed is a
    [gmap string _]; a [dict] whose insertion order is observed (the
    [properties] of a schema) is an association list with Python's update
    discipline. *)

From Stdlib Require Import String Ascii List Bool Arith Lia.
From stdpp Require Import base option list strings gmap.

Local Open Scope string_scope.
Local Open Scope list_scope.

(** ** Python exceptions *)

Inductive exn : Type :=
| ValueError (msg : string)
| IndexError
| KeyError (key : string).

Inductive result (A : Type) : Type :=
| OK (a : A)
| Raise (e : exn).
Arguments OK {A} a.
Arguments Raise {A} e.

Definition rbind {A B : Type} (r : result A) (k : A -> result B) : result B :=
  match r with
  | OK a => k a
  | Raise e => Raise e
  end.

Notation "x <-! r ; k" := (rbind r (fun x => k))
  (at level 100, r at next level, right associativity, only parsing).

(** ** Python string primitives *)

Module PyStr.

Definition nl : ascii := "010"%char.
Definition dquote : ascii := "034"%char.
Definition space : ascii := " "%char.

Definition str (c : ascii) : string := String c EmptyString.

(** [bool(s)]: a string is truthy when it is not empty. *)
Definition truthy (s : string) : bool :=
  match s with
  | EmptyString => false
  | String _ _ => true
  end.

(** [s.split(sep)] for a one-character separator: never the empty list. *)
Fixpoint split (sep : ascii) (s : string) : list string :=
  match s with
  | EmptyString => [EmptyString]
  | String c s' =>
      if Ascii.eqb c sep then EmptyString :: split sep s'
      else match split sep s' with
           | [] => [str c]
           | w :: ws => String c w :: ws
           end
  end.

(** [sep.join(l)] *)
Fixpoint join (sep : string) (l : list string) : string :=
  match l with
  | [] => EmptyString
  | [x] => x
  | x :: rest => x +:+ sep +:+ join sep rest
  end.

(** [s.startswith(p)] *)
Definition startswith (s p : string) : bool := String.prefix p s.

(** [s[n:]] for [n >= 0] *)
Fixpoint slice_from (n : nat) (s : string) : string :=
  match n, s with
  | O, _ => s
  | S _, EmptyString => EmptyString
  | S n', String _ s' => slice_from n' s'
  end.

(** [s[:n]] for [n >= 0] *)
Fixpoint slice_to (n : nat) (s : string) : string :=
  match n, s with
  | O, _ => EmptyString
  | S _, EmptyString => EmptyString
  | S n', String c s' => String c (slice_to n' s')
  end.

(** [c in chars] for a character *)
Fixpoint mem (c : ascii) (chars : string) : bool :=
  match chars with
  | EmptyString => false
  | String d rest => Ascii.eqb c d || mem c rest
  end.

(** [s.lstrip(chars)], [s.rstrip(chars)], [s.strip(chars)]: every leading
    (trailing) character that belongs to [chars] goes, however many. *)
Fixpoint lstrip (chars : string) (s : string) : string :=
  match s with
  | EmptyString => EmptyString
  | String c s' => if mem c chars then lstrip chars s' else s
  end.

Fixpoint rstrip (chars : string) (s : string) : string :=
  match s with
  | EmptyString => EmptyString
  | String c s' =>
      match rstrip chars s' with
      | EmptyString => if mem c chars then EmptyString else str c
      | String _ _ as r => String c r
      end
  end.

Definition strip (chars : string) (s : string) : string :=
  rstrip chars (lstrip chars s).

(** The characters below 256 for which [str.isspace] holds; [s.strip()]
    with no argument removes these. *)
Definition whitespace : string :=
  String "009" (String "010" (String "011" (String "012" (String "013"
  (String "028" (String "029" (String "030" (String "031" (String "032"
  (String "133" (String "160" EmptyString))))))))))).

Definition strip_ws (s : string) : string := strip whitespace s.

(** [s.find(sub, start)] counted from the beginning of [s]; [None] is
    Python's [-1]. *)
Fixpoint find_from (sub s : string) (pos : nat) : option nat :=
  if String.prefix sub s then Some pos
  else match s with
       | EmptyString => None
       | String _ s' => find_from sub s' (S pos)
       end.

Definition find (sub s : string) (start : nat) : option nat :=
  if Nat.leb start (String.length s)
  then find_from sub (slice_from start s) start
  else None.

(** [sub in s] *)
Definition contains (s sub : string) : bool :=
  match find sub s 0 with
  | Some _ => true
  | None => false
  end.

(** [s.lower()] on the characters below 256: the capitals are A to Z
    (65 to 90) and the accented ones from 192 to 222, the multiplication
    sign (215) excepted; each has its small letter 32 places further. *)
Definition lower_char (c : ascii) : ascii :=
  let n := nat_of_ascii c in
  if (Nat.leb 65 n && Nat.leb n 90)
     || (Nat.leb 192 n && Nat.leb n 222 && negb (Nat.eqb n 215))
  then ascii_of_nat (n + 32) else c.

Fixpoint lower (s : string) : string :=
  match s with
  | EmptyString => EmptyString
  | String c s' => String (lower_char c) (lower s')
  end.

(** [l[-k]] for [k >= 1] *)
Definition index_neg {A : Type} (l : list A) (k : nat) : result A :=
  if Nat.leb k (length l)
  then match nth_error l (length l - k) with
       | Some x => OK x
       | None => Raise IndexError
       end
  else Raise IndexError.

(** [l[-n:]] for [n >= 1] *)
Definition last_n {A : Type} (n : nat) (l : list A) : list A :=
  skipn (length l - n) l.

(** Every character of [s] belongs to [chars]. *)
Fixpoint all_in (chars s : string) : bool :=
  match s with
  | EmptyString => true
  | String c s' => mem c chars && all_in chars s'
  end.

End PyStr.

(** ** The MRKL agent *)

Module MRKL.
Import PyStr.

(** *** [get_action_and_input] *)

Definition FINAL_ANSWER_ACTION : string := "Final Answer: ".

Definition no_action_input_msg : string :=
  "The last line does not have an action input, " +:+
  "something has gone terribly wrong.".

Definition no_action_msg : string :=
  "The second to last line does not have an action, " +:+
  "something has gone terribly wrong.".

(** [[p for p in llm_output.split("\n") if p]] *)
Definition nonempty_lines (llm_output : string) : list string :=
  List.filter truthy (split nl llm_output).

Definition get_action_and_input (llm_output : string)
  : result (string * string) :=
  let ps := nonempty_lines llm_output in
  last <-! index_neg ps 1;
  if startswith last "Final Answer" then
    let directive := slice_from (String.length FINAL_ANSWER_ACTION) last in
    OK ("Final Answer", directive)
  else if negb (startswith last "Action Input: ") then
    Raise (ValueError no_action_input_msg)
  else
    second <-! index_neg ps 2;
    if negb (startswith second "Action: ") then
      Raise (ValueError no_action_msg)
    else
      let action := slice_from (String.length "Action: ") second in
      let action_input := slice_from (String.length "Action Input: ") last in
      OK (action, strip (str dquote) (strip (str space) action_input)).

(** *** The prompt *)

Record tool : Type := { name : string; description : string }.

Definition tools : list tool :=
  [ {| name := "Calculator";
       description := "useful for when you need to answer questions about math" |};
    {| name := "Search";
       description := "useful for when you need to answer questions about current events. You should ask targeted questions" |} ].

Definition tool_strings : string :=
  join (str nl) (map (fun t => name t +:+ ": " +:+ description t) tools).

Definition tool_names : string := join ", " (map name tools).

Definition prefix : string :=
  "Answer the following questions as best as you can. You have access to the following tools:".

Definition format_instructions : string :=
  join (str nl)
    [ "Use the following format:";
      "Question: the input question you must answer";
      "Thought: you should always think about what to do";
      "Action: the action to take, should be one of [" +:+ tool_names +:+ "]";
      "Action Input: the input to the action";
      "Observation: the result of the action";
      "... (this Thought/Action/Action Input/Observation can repeat N times)";
      "Thought: I now know the final answer";
      "Final Answer: the final answer to the original input question" ].

Definition suffix (query agent_scratchpad : string) : string :=
  join (str nl)
    [ "Begin!";
      "Question: " +:+ query;
      "Thought: " +:+ agent_scratchpad;
      "        " ].

(** The [template] that [run] assembles before it enters its loop. *)
Definition template (query : string) : string :=
  let agent_scratchpad := "" in
  join (str nl +:+ str nl)
    [prefix; tool_strings; format_instructions; suffix query agent_scratchpad].

(** *** The loop of [run]

    The model and the tools are outside the program.  [prompt_node] is
    given the number of calls made so far, so that it may answer the same
    prompt differently from one call to the next; a tool pipeline maps
    its [query] to the result dictionary that [run] returns first.  Both
    kinds of calls are recorded in a [trace]. *)

Abbreviation Pipeline := (string -> gmap string string) (only parsing).
Abbreviation PromptNode := (nat -> string -> list string) (only parsing).

Record MRKLAgent : Type := {
  tool_map : gmap string Pipeline;
  prompt_node : PromptNode;
  pipeline_names : list string
}.

Inductive event : Type :=
| Prompted (prompt : string)
| Invoked (action action_input : string).

Record world : Type := { calls : nat; trace : list event }.

Definition M (A : Type) : Type := world -> result A * world.

Definition ret {A : Type} (a : A) : M A := fun w => (OK a, w).

Definition bind {A B : Type} (m : M A) (k : A -> M B) : M B :=
  fun w => match m w with
           | (OK a, w') => k a w'
           | (Raise e, w') => (Raise e, w')
           end.

Definition lift {A : Type} (r : result A) : M A := fun w => (r, w).

Notation "x <- m ;; k" := (bind m (fun x => k))
  (at level 100, m at next level, right associativity, only parsing).

(** [self.prompt_node(template)] *)
Definition call_prompt_node (self : MRKLAgent) (prompt : string)
  : M (list string) :=
  fun w => (OK (prompt_node self (calls w) prompt),
            {| calls := S (calls w);
               trace := trace w ++ [Prompted prompt] |}).

(** [next_pipeline.run(query=action_input)] *)
Definition call_pipeline (action : string) (next_pipeline : Pipeline)
    (action_input : string) : M (gmap string string) :=
  fun w => (OK (next_pipeline action_input),
            {| calls := calls w;
               trace := trace w ++ [Invoked action action_input] |}).

(** [d[key]] *)
Definition getitem {V : Type} (d : gmap string V) (key : string)
  : result V :=
  match d !! key with
  | Some v => OK v
  | None => Raise (KeyError key)
  end.

(** [pred[0]] *)
Definition first {A : Type} (l : list A) : result A :=
  match l with
  | x :: _ => OK x
  | [] => Raise IndexError
  end.

(** How one pass through the body of [while True] ends: [run] returns, or
    the loop goes round again with the local [query] as it now stands. *)
Inductive outcome : Type :=
| Returned (answer : string)
| Running (query : string).

Definition loop_body (self : MRKLAgent) (template query : string)
  : M outcome :=
  pred <- call_prompt_node self template;;
  llm_output <- lift (first pred);;
  parsed <- lift (get_action_and_input llm_output);;
  let '(action, action_input) := parsed in
  if String.eqb action "Final Answer" then ret (Returned action_input)
  else
    next_pipeline <- lift (getitem (tool_map self) action);;
    result <- call_pipeline action next_pipeline action_input;;
    observation <- lift (getitem result "output");;
    ret (Running (query +:+ observation)).

(** [while True], cut after [fuel] passes: [Running q] then says that the
    loop is still going, with [q] as its [query]. *)
Fixpoint while_true (fuel : nat) (self : MRKLAgent)
    (template query : string) : M outcome :=
  match fuel with
  | O => ret (Running query)
  | S fuel' =>
      r <- loop_body self template query;;
      match r with
      | Returned answer => ret (Returned answer)
      | Running query' => while_true fuel' self template query'
      end
  end.

Definition run (fuel : nat) (self : MRKLAgent) (query : string)
  : M outcome :=
  while_true fuel self (template query) query.

Definition start : world := {| calls := 0; trace := [] |}.

(** The prompts sent and the tools invoked, read off a trace. *)
Definition prompts (tr : list event) : list string :=
  omap (fun e => match e with Prompted p => Some p | _ => None end) tr.

Definition invocations (tr : list event) : list (string * string) :=
  omap (fun e => match e with Invoked a i => Some (a, i) | _ => None end) tr.

End MRKL.

(** ** The service container *)

Module Service.
Import PyStr.

(** What [generate_description] observes of an annotation object [a]:
    [str(a)], [bool(a)], and the keys of [a.__members__] when [a] has that
    attribute (an enumeration). *)
Record annotation : Type := {
  ann_str : string;
  ann_truthy : bool;
  ann_members : option (list string)
}.

(** [inspect.getfullargspec(func)]: the positional parameters [args], the
    names of [*args] and [**kwargs] when the function has them, the
    defaults of the last positional parameters ([None] or a tuple, the
    values kept as their source text), the keyword-only parameters and
    their defaults, and the annotations.  [generate_description] reads
    [args], [defaults] and [annotations]. *)
Record FullArgSpec : Type := {
  args : list string;
  varargs : option string;
  varkw : option string;
  defaults : option (list string);
  kwonlyargs : list string;
  kwonlydefaults : option (gmap string string);
  annotations : gmap string annotation
}.

(** A function object: its [__name__], [inspect.getdoc] of it, and its
    argument specification. *)
Record pyfunction : Type := {
  func_name : string;
  getdoc : option string;
  getfullargspec : FullArgSpec
}.

Record param_info : Type := {
  p_type : string;
  p_description : string;
  p_enum : option (list string)
}.

(** A [dict] in insertion order: [d[k] = v] replaces in place the value of
    a key that is there and appends a key that is not. *)
Fixpoint setitem {V : Type} (d : list (string * V)) (k : string) (v : V)
  : list (string * V) :=
  match d with
  | [] => [(k, v)]
  | (k', v') :: rest =>
      if String.eqb k' k then (k', v) :: rest
      else (k', v') :: setitem rest k v
  end.

Record parameters : Type := {
  s_type : string;
  properties : list (string * param_info);
  required : list string
}.

Record representation : Type := {
  r_name : string;
  r_description : string;
  r_parameters : parameters
}.

(** [extract_description] *)

Fixpoint description_lines (lines : list string) : list string :=
  match lines with
  | [] => []
  | line :: rest =>
      if startswith (strip_ws line) ":" then []
      else line :: description_lines rest
  end.

Definition extract_description (docstring : string) : string :=
  let lines := split nl (strip_ws docstring) in
  strip_ws (join (str nl) (description_lines lines)).

(** [generate_description] *)

Definition no_docstring_msg (fname : string) : string :=
  "No docstring provided for function " +:+ fname.

Definition no_annotation_msg (arg fname : string) : string :=
  "No type annotation for parameter " +:+ arg +:+ " in function " +:+ fname.

(** [bool(x)] for [x] an optional object *)
Definition annotation_given (a : option annotation) : bool :=
  match a with
  | Some ann => ann_truthy ann
  | None => false
  end.

(** [s.index(sub)] *)
Definition index (s sub : string) : result nat :=
  match find sub s 0 with
  | Some i => OK i
  | None => Raise (ValueError "substring not found")
  end.

(** [s[a:b]] for [0 <= a], with [b = None] for an open end *)
Definition slice (a : nat) (b : option nat) (s : string) : string :=
  match b with
  | None => slice_from a s
  | Some e => slice_to (e - a) (slice_from a s)
  end.

(** The text that documents [arg] in [docstring]: the lines 95 to 101. *)
Definition param_description (docstring arg : string) : result string :=
  let param_doc := ":param " +:+ arg +:+ ":" in
  if contains docstring param_doc then
    i <-! index docstring param_doc;
    let param_desc_start := i + String.length param_doc in
    let param_desc_end :=
      if contains (slice_from param_desc_start docstring) ":param"
      then find ":param" docstring param_desc_start
      else None in
    OK (strip_ws (slice param_desc_start param_desc_end docstring))
  else OK "".

(** The body of [for arg in func_info.args], threaded through the
    [properties] dictionary. *)
Fixpoint describe_args (fname docstring : string)
    (anns : gmap string annotation) (todo : list string)
    (props : list (string * param_info))
  : result (list (string * param_info)) :=
  match todo with
  | [] => OK props
  | arg :: rest =>
      if String.eqb arg "self" then
        describe_args fname docstring anns rest props
      else
        match anns !! arg with
        | Some arg_annotation =>
            if negb (ann_truthy arg_annotation) then
              Raise (ValueError (no_annotation_msg arg fname))
            else
              desc <-! param_description docstring arg;
              let info := {| p_type := lower (ann_str arg_annotation);
                             p_description := desc;
                             p_enum := ann_members arg_annotation |} in
              describe_args fname docstring anns rest (setitem props arg info)
        | None => Raise (ValueError (no_annotation_msg arg fname))
        end
  end.

(** [x in l] for strings *)
Definition elem (x : string) (l : list string) : bool :=
  existsb (String.eqb x) l.

Definition optional_args (func_info : FullArgSpec) : list string :=
  match defaults func_info with
  | Some ds =>
      match ds with
      | _ :: _ => last_n (length ds) (args func_info)
      | [] => []
      end
  | None => []
  end.

Definition required_args (func_info : FullArgSpec) : list string :=
  List.filter
    (fun arg => negb (elem arg (optional_args func_info))
                && negb (String.eqb arg "self"))
    (args func_info).

(** [generate_description] returns [json.dumps(representation, indent=4)],
    and its one caller reads the text back with [json.loads].  Every value
    in [representation] is a string, a list of strings or a dictionary of
    such, for which reading back what was written is the identity; so the
    text is carried here as the dictionary it encodes. *)
Definition generate_description (func : pyfunction) : result representation :=
  let func_info := getfullargspec func in
  match getdoc func with
  | None => Raise (ValueError (no_docstring_msg (func_name func)))
  | Some docstring =>
      if negb (truthy docstring) then
        Raise (ValueError (no_docstring_msg (func_name func)))
      else
        let description := extract_description docstring in
        props <-! describe_args (func_name func) docstring
                    (annotations func_info) (args func_info) [];
        OK {| r_name := func_name func;
              r_description := description;
              r_parameters :=
                {| s_type := "object";
                   properties := props;
                   required := required_args func_info |} |}
  end.

(** [generate_descriptions]

    An attribute of a class is a function or something else; a class is
    given by what [inspect.getmembers(cls)] lists for it, each attribute
    with its name, in the order of that listing. *)
Inductive member : Type :=
| Function (f : pyfunction)
| Attribute.

Definition pyclass : Type := list (string * member).

Definition isfunction (m : member) : bool :=
  match m with
  | Function _ => true
  | Attribute => false
  end.

Definition getmembers (cls : pyclass) (predicate : member -> bool)
  : list (string * member) :=
  List.filter (fun nm => predicate (snd nm)) cls.

Fixpoint describe_members (ms : list (string * member))
    (descriptions : list representation) : result (list representation) :=
  match ms with
  | [] => OK descriptions
  | (_, Function func) :: rest =>
      json_repr <-! generate_description func;
      describe_members rest (descriptions ++ [json_repr])
  | (_, Attribute) :: rest => describe_members rest descriptions
  end.

Definition generate_descriptions (cls : pyclass)
  : result (list representation) :=
  describe_members (getmembers cls isfunction) [].

(** A name is public when it does not begin with an underscore. *)
Definition public (name : string) : bool := negb (startswith name "_").

(** [d.get(k)] on a dictionary in insertion order *)
Fixpoint assoc {V : Type} (d : list (string * V)) (k : string) : option V :=
  match d with
  | [] => None
  | (k', v) :: rest => if String.eqb k' k then Some v else assoc rest k
  end.

(** The function members of a listing, in its order *)
Fixpoint functions_of (ms : list (string * member)) : list pyfunction :=
  match ms with
  | [] => []
  | (_, Function f) :: rest => f :: functions_of rest
  | (_, Attribute) :: rest => functions_of rest
  end.

Definition not_self (arg : string) : bool := negb (String.eqb arg "self").

(** What the loop over the arguments puts in [properties] for an
    argument: the annotation's text in lower case, and its members. *)
Definition typed (anns : gmap string annotation) (k : string)
    (info : param_info) : Prop :=
  exists ann, anns !! k = Some ann /\ ann_truthy ann = true
              /\ p_type info = lower (ann_str ann)
              /\ p_enum info = ann_members ann.

End Service.

(** ** The design document's reading, where it differs *)

Module Spec.
Import PyStr.

Fixpoint last_char (s : string) : option ascii :=
  match s with
  | EmptyString => None
  | String c EmptyString => Some c
  | String _ s' => last_char s'
  end.

Fixpoint drop_last (s : string) : string :=
  match s with
  | EmptyString => EmptyString
  | String _ EmptyString => EmptyString
  | String c s' => String c (drop_last s')
  end.

(** "one layer of surrounding double-quote characters if present on both
    ends" *)
Definition unquote_one_layer (s : string) : string :=
  match s with
  | String c rest =>
      match last_char rest with
      | Some d => if Ascii.eqb c dquote && Ascii.eqb d dquote
                  then drop_last rest else s
      | None => s
      end
  | EmptyString => EmptyString
  end.

(** "trimmed of surrounding spaces, then of one layer of surrounding
    double-quote characters if present on both ends" *)
Definition action_input (text : string) : string :=
  unquote_one_layer (strip (str space) text).

End Spec.

(** ** Sample inputs *)

Module Examples.
Import PyStr MRKL.

Definition thought_then_final : string :=
  "Thought: I now know the final answer" +:+ str nl +:+ "Final Answer: 4".

(** An action input [2+2] with a quote on both ends and spaces around *)
Definition quoted_input : string :=
  "  " +:+ str dquote +:+ "2+2" +:+ str dquote +:+ " ".

Definition calculator_call : string :=
  "Thought: I need to compute" +:+ str nl +:+
  "Action: Calculator" +:+ str nl +:+
  "Action Input: " +:+ quoted_input.

(** An action input [2+2] with a quote on the left end only *)
Definition half_quoted_input : string := str dquote +:+ "2+2".

Definition half_quoted_call : string :=
  "Action: Search" +:+ str nl +:+ "Action Input: " +:+ half_quoted_input.

Definition input_without_action : string :=
  "Thought: I should look this up" +:+ str nl +:+ "Action Input: Y".

Definition lone_action_input : string := "Action Input: Y".

Definition blank_text : string := "   ".

(** The design document's scenario: the model first asks for the
    calculator, the calculator answers 4, the model then concludes. *)
Definition calculator : Pipeline := fun _ => {[ "output" := "4" ]}.

Definition calc_agent : MRKLAgent :=
  {| tool_map := {[ "Calculator" := calculator ]};
     prompt_node := fun n _ =>
       match n with
       | O => [calculator_call]
       | S _ => ["Final Answer: 4"]
       end;
     pipeline_names := ["Calculator"] |}.

(** The model asks for a tool that the agent does not have. *)
Definition weather_call : string :=
  "Action: Weather" +:+ str nl +:+ "Action Input: Paris".

Definition no_weather_agent : MRKLAgent :=
  {| tool_map := {[ "Calculator" := calculator ]};
     prompt_node := fun _ _ => [weather_call];
     pipeline_names := ["Calculator"] |}.

(** An agent whose only tool is a weather forecast. *)
Definition forecast : Pipeline := fun _ => {[ "output" := "sunny" ]}.

Definition forecast_agent : MRKLAgent :=
  {| tool_map := {[ "Weather" := forecast ]};
     prompt_node := fun _ _ => ["Final Answer: sunny"];
     pipeline_names := ["Weather"] |}.

(** Methods and a class for the service container *)
Import Service.

Definition int_ann : annotation :=
  {| ann_str := "<class 'int'>"; ann_truthy := true; ann_members := None |}.

Definition str_ann : annotation :=
  {| ann_str := "<class 'str'>"; ann_truthy := true; ann_members := None |}.

(** [def f(self, a: int, b: str = 'x')], documented *)
Definition f : pyfunction :=
  {| func_name := "f";
     getdoc := Some ("Combine a and b." +:+ str nl +:+
                     ":param a: the number" +:+ str nl +:+
                     ":param b: the label");
     getfullargspec :=
       {| args := ["self"; "a"; "b"];
          varargs := None; varkw := None;
          defaults := Some ["'x'"];
          kwonlyargs := []; kwonlydefaults := None;
          annotations := {[ "a" := int_ann; "b" := str_ann ]} |} |}.

(** The same method without a docstring *)
Definition f_undocumented : pyfunction :=
  {| func_name := "f"; getdoc := None; getfullargspec := getfullargspec f |}.

(** [def g(self, a: int, b)], documented *)
Definition g_untyped : pyfunction :=
  {| func_name := "g";
     getdoc := Some "Combine a and b.";
     getfullargspec :=
       {| args := ["self"; "a"; "b"];
          varargs := None; varkw := None;
          defaults := None;
          kwonlyargs := []; kwonlydefaults := None;
          annotations := {[ "a" := int_ann ]} |} |}.

(** [def _secret(self)] and [def greet(self, a: int)], both documented *)
Definition secret : pyfunction :=
  {| func_name := "_secret";
     getdoc := Some "Not for callers.";
     getfullargspec :=
       {| args := ["self"]; varargs := None; varkw := None;
          defaults := None; kwonlyargs := []; kwonlydefaults := None;
          annotations := ∅ |} |}.

Definition greet : pyfunction :=
  {| func_name := "greet";
     getdoc := Some "Say hello.";
     getfullargspec :=
       {| args := ["self"; "a"]; varargs := None; varkw := None;
          defaults := None; kwonlyargs := []; kwonlydefaults := None;
          annotations := {[ "a" := int_ann ]} |} |}.

Definition service : pyclass :=
  [ ("__module__", Attribute);
    ("_secret", Function secret);
    ("greet", Function greet) ].

End Examples.

(** ** Further sample inputs *)

Module MoreExamples.
Import PyStr MRKL.

Definition long_reasoning : string :=
  "Thought: first I look at the question" +:+ str nl +:+
  "Thought: then I decide" +:+ str nl +:+
  "Action: Search" +:+ str nl +:+
  "Action Input: weather in Paris".

Definition short_reasoning : string :=
  "Action: Search" +:+ str nl +:+ str nl +:+
  "Action Input: weather in Paris" +:+ str nl.

End MoreExamples.

(** ** Loading an agent from a YAML file *)

Module Loading.
Import PyStr MRKL.

(** [load_from_yaml] raises [PipelineConfigError] itself, and passes on
    what the functions it calls raise. *)
Inductive loaded (A : Type) : Type :=
| Loaded (a : A)
| PipelineConfigError (msg : string)
| LoadRaise (e : exn).
Arguments Loaded {A} a.
Arguments PipelineConfigError {A} msg.
Arguments LoadRaise {A} e.

Definition lbind {A B : Type} (r : loaded A) (k : A -> loaded B) : loaded B :=
  match r with
  | Loaded a => k a
  | PipelineConfigError msg => PipelineConfigError msg
  | LoadRaise e => LoadRaise e
  end.

Notation "x <-? r ; k" := (lbind r (fun x => k))
  (at level 100, r at next level, right associativity, only parsing).

Definition of_result {A : Type} (r : result A) : loaded A :=
  match r with
  | OK a => Loaded a
  | Raise e => LoadRaise e
  end.

(** Of the definition of a pipeline in the configuration, the entries whose
    values are strings; [load_from_yaml] reads [name] alone.  Of the
    configuration, its list of pipelines, when it has one. *)
Record Config : Type := {
  pipelines : option (list (gmap string string))
}.

(** A component of a loaded pipeline is an agent or something else. *)
Inductive component : Type :=
| AgentNode (agent : MRKLAgent)
| OtherNode.

(** What is used of a loaded pipeline: the values of its [components], in
    their order, and what its [run] answers to a query. *)
Record LoadedPipeline : Type := {
  components : list component;
  run_query : string -> gmap string string
}.

(** [str(pipeline_name)] in the messages *)
Definition show_name (pipeline_name : option string) : string :=
  match pipeline_name with
  | Some n => n
  | None => "None"
  end.

Definition no_agent_msg (pipeline_name : option string) : string :=
  "The loaded pipeline " +:+ show_name pipeline_name +:+
  " contains no MRKLAgent node. Please use a pipeline that contains such a node if you want to load it as a MRKLAgent.".

Definition many_agents_msg (pipeline_name : option string) : string :=
  "The loaded pipeline " +:+ show_name pipeline_name +:+
  " contains more than one MRKLAgent node. Please use a pipeline that contains exactly one such node if you want to load it as a MRKLAgent.".

(** [[p["name"] for p in config["pipelines"] if p["name"] != pipeline_name]] *)
Fixpoint names_but (defs : list (gmap string string))
    (pipeline_name : option string) : result (list string) :=
  match defs with
  | [] => OK []
  | p :: rest =>
      n <-! getitem p "name";
      names <-! names_but rest pipeline_name;
      OK (if decide (Some n = pipeline_name) then names else n :: names)
  end.

(** [[node for node in components.values() if isinstance(node, MRKLAgent)]] *)
Fixpoint agent_nodes (nodes : list component) : list MRKLAgent :=
  match nodes with
  | [] => []
  | AgentNode agent :: rest => agent :: agent_nodes rest
  | OtherNode :: rest => agent_nodes rest
  end.

(** [{pn: p for (pn, p) in zip(names, pipelines) if pn in keep}]: the
    pairs are entered from left to right, a later one replacing an earlier
    one of the same name. *)
Definition tool_map_of (names : list string) (ps : list LoadedPipeline)
    (keep : list string) : gmap string (string -> gmap string string) :=
  fold_left
    (fun m (np : string * LoadedPipeline) =>
       if decide (fst np ∈ keep) then <[fst np := run_query (snd np)]> m
       else m)
    (combine names ps) ∅.

Section LoadFromYaml.

(** The functions of haystack that [load_from_yaml] calls:
    [read_pipeline_config_from_yaml] and [Pipeline.load_from_config], the
    latter with its two flags. *)
Variable read_pipeline_config_from_yaml : string -> loaded Config.
Variable load_from_config :
  Config -> option string -> bool -> bool -> loaded LoadedPipeline.

Fixpoint load_all (config : Config) (names : list string)
    (overwrite_with_env_variables strict_version_check : bool)
  : loaded (list LoadedPipeline) :=
  match names with
  | [] => Loaded []
  | n :: rest =>
      p <-? load_from_config config (Some n)
              overwrite_with_env_variables strict_version_check;
      ps <-? load_all config rest
               overwrite_with_env_variables strict_version_check;
      Loaded (p :: ps)
  end.

Definition load_from_yaml (path : string) (pipeline_name : option string)
    (overwrite_with_env_variables strict_version_check : bool)
  : loaded MRKLAgent :=
  config <-? read_pipeline_config_from_yaml path;
  defs <-? match pipelines config with
           | Some defs => Loaded defs
           | None => LoadRaise (KeyError "pipelines")
           end;
  tool_pipeline_names <-? of_result (names_but defs pipeline_name);
  tool_pipelines <-? load_all config tool_pipeline_names
                       overwrite_with_env_variables strict_version_check;
  mrkl_pipeline <-? load_from_config config pipeline_name
                      overwrite_with_env_variables strict_version_check;
  match agent_nodes (components mrkl_pipeline) with
  | [] => PipelineConfigError (no_agent_msg pipeline_name)
  | [mrkl_agent] =>
      Loaded {| tool_map := tool_map_of tool_pipeline_names tool_pipelines
                              (pipeline_names mrkl_agent);
                prompt_node := prompt_node mrkl_agent;
                pipeline_names := pipeline_names mrkl_agent |}
  | _ :: _ :: _ => PipelineConfigError (many_agents_msg pipeline_name)
  end.

End LoadFromYaml.

(** A configuration with three pipelines: two tools and the pipeline of
    the agent, which names one of the tools. *)
Definition named (n : string) : gmap string string := {[ "name" := n ]}.

Definition sample_config : Config :=
  {| pipelines := Some [named "Calculator"; named "Search"; named "agent"] |}.

Definition sample_agent_node : MRKLAgent :=
  {| tool_map := ∅;
     prompt_node := fun _ _ => ["Final Answer: 4"];
     pipeline_names := ["Calculator"; "Translator"] |}.

Definition sample_read (path : string) : loaded Config := Loaded sample_config.

Definition sample_load (config : Config) (pipeline_name : option string)
    (overwrite_with_env_variables strict_version_check : bool)
  : loaded LoadedPipeline :=
  match pipeline_name with
  | Some "agent" =>
      Loaded {| components := [OtherNode; AgentNode sample_agent_node];
                run_query := fun _ => ∅ |}
  | Some "Calculator" =>
      Loaded {| components := [OtherNode];
                run_query := fun _ => {[ "output" := "4" ]} |}
  | Some "Search" =>
      Loaded {| components := [OtherNode];
                run_query := fun _ => {[ "output" := "found" ]} |}
  | _ => LoadRaise (KeyError "pipeline")
  end.

(** The same, with a search pipeline that cannot be loaded. *)
Definition failing_load (config : Config) (pipeline_name : option string)
    (overwrite_with_env_variables strict_version_check : bool)
  : loaded LoadedPipeline :=
  match pipeline_name with
  | Some "Search" => LoadRaise (ValueError "no such component")
  | _ => sample_load config pipeline_name
           overwrite_with_env_variables strict_version_check
  end.

(** The same, with a search pipeline whose definition haystack refuses. *)
Definition misconfigured_load (config : Config)
    (pipeline_name : option string)
    (overwrite_with_env_variables strict_version_check : bool)
  : loaded LoadedPipeline :=
  match pipeline_name with
  | Some "Search" => PipelineConfigError "Cannot find node 'Retriever'"
  | _ => sample_load config pipeline_name
           overwrite_with_env_variables strict_version_check
  end.

End Loading.

(** ** Reading a run *)

Module Reading.
Import PyStr MRKL.

(** The trace of complete passes: a prompt, then the tool it led to. *)
Definition rounds (t : string) (invs : list (string * string))
  : list event :=
  flat_map (fun ai => [Prompted t; Invoked (fst ai) (snd ai)]) invs.

(** The tool of an invocation is in the registry and is not the name that
    [run] keeps for the final answer. *)
Definition registered (self : MRKLAgent) (ai : string * string) : Prop :=
  fst ai <> "Final Answer" /\ is_Some (tool_map self !! fst ai).

(** A model that names [Final Answer] as its action, and an agent that has
    a tool of that name. *)
Definition final_as_action : string :=
  "Action: Final Answer" +:+ str nl +:+ "Action Input: 42".

Definition shadowed_agent : MRKLAgent :=
  {| tool_map := {[ "Final Answer" := Examples.calculator ]};
     prompt_node := fun _ _ => [final_as_action];
     pipeline_names := ["Final Answer"] |}.

(** The same model with an agent whose registry has the calculator only. *)
Definition unshadowed_agent : MRKLAgent :=
  {| tool_map := {[ "Calculator" := Examples.calculator ]};
     prompt_node := fun _ _ => [final_as_action];
     pipeline_names := ["Calculator"] |}.

(** A model that answers nothing at all, and one that rambles. *)
Definition silent_agent : MRKLAgent :=
  {| tool_map := {[ "Calculator" := Examples.calculator ]};
     prompt_node := fun _ _ => [];
     pipeline_names := ["Calculator"] |}.

(** A tool whose result has no [output]. *)
Definition mute : string -> gmap string string :=
  fun _ => {[ "answer" := "4" ]}.

Definition mute_agent : MRKLAgent :=
  {| tool_map := {[ "Calculator" := mute ]};
     prompt_node := fun _ _ => [Examples.calculator_call];
     pipeline_names := ["Calculator"] |}.

End Reading.

(** ** Further methods and classes *)

Module MoreServices.
Import PyStr Service.

(** A class whose second method has no docstring *)
Definition broken_service : pyclass :=
  [ ("combine", Function Examples.f);
    ("forgotten", Function Examples.f_undocumented);
    ("greet", Function Examples.greet) ].

(** An enumeration as an annotation, and [def paint(self, shade: Color)] *)
Definition color_ann : annotation :=
  {| ann_str := "<enum 'Color'>"; ann_truthy := true;
     ann_members := Some ["RED"; "GREEN"] |}.

Definition paint : pyfunction :=
  {| func_name := "paint";
     getdoc := Some "Paint it.";
     getfullargspec :=
       {| args := ["self"; "shade"]; varargs := None; varkw := None;
          defaults := None; kwonlyargs := []; kwonlydefaults := None;
          annotations := {[ "shade" := color_ann ]} |} |}.

(** A word with an accented capital (character 201) and its small letters
    (character 233) *)
Definition ECOLE : string := String "201" "COLE".
Definition ecole : string := String "233" "cole".

(** [def scale(self, a: int, *rest, factor, **options)], documented: the
    variadic and the keyword-only parameters have no annotation. *)
Definition scale : pyfunction :=
  {| func_name := "scale";
     getdoc := Some "Scale a.";
     getfullargspec :=
       {| args := ["self"; "a"];
          varargs := Some "rest"; varkw := Some "options";
          defaults := None;
          kwonlyargs := ["factor"]; kwonlydefaults := None;
          annotations := {[ "a" := Examples.int_ann ]} |} |}.

(** [def label(self, a: int, *, b: str)], documented: the keyword-only
    parameter has an annotation and no default. *)
Definition label : pyfunction :=
  {| func_name := "label";
     getdoc := Some "Label a with b.";
     getfullargspec :=
       {| args := ["self"; "a"];
          varargs := None; varkw := None;
          defaults := None;
          kwonlyargs := ["b"]; kwonlydefaults := None;
          annotations := {[ "a" := Examples.int_ann;
                            "b" := Examples.str_ann ]} |} |}.

(** A class that holds one function under two names: [alias = greet]. *)
Definition aliased_service : pyclass :=
  [ ("alias", Function Examples.greet);
    ("greet", Function Examples.greet) ].

(** A docstring with leading and trailing blank space and no annotation
    block, and one that has nothing before its annotation block. *)
Definition plain_docstring : string :=
  str nl +:+ "  Combine a and b." +:+ str nl +:+ "  Return the sum." +:+ str nl.

Definition bare_docstring : string :=
  str nl +:+ "  :param a: the number" +:+ str nl +:+ "  :return: the sum".

End MoreServices.

(** * Properties *)

#[local] Arguments String.append !_ _ / : simpl nomatch.

(** ** Strings and lists *)

Section StringFacts.
Import PyStr.



Lemma startswith_app (p s : string) : startswith (p +:+ s) p = true.
Proof.
  unfold startswith. induction p as [|c p IH]; simpl.
  - now destruct s.
  - destruct (ascii_dec c c) as [_|ne]; [exact IH | now destruct ne].
Qed.

Lemma startswith_inv (s p : string) :
  startswith s p = true -> s = p +:+ slice_from (String.length p) s.
Proof.
  unfold startswith. revert s. induction p as [|c p IH]; intros s H.
  - reflexivity.
  - destruct s as [|d s]; simpl in H; [discriminate|].
    destruct (ascii_dec c d) as [->|]; [|discriminate].
    simpl. f_equal. now apply IH.
Qed.

Lemma slice_from_app (p s : string) : slice_from (String.length p) (p +:+ s) = s.
Proof. induction p as [|c p IH]; simpl; [now destruct s | exact IH]. Qed.

(** [split] never yields the empty list, and splitting distributes over a
    separator in the middle. *)
Lemma split_not_nil (sep : ascii) (s : string) : split sep s <> [].
Proof.
  induction s as [|c s IH]; simpl; [discriminate|].
  destruct (Ascii.eqb c sep); [discriminate|].
  destruct (split sep s); discriminate.
Qed.

Lemma split_app (sep : ascii) (a b : string) :
  split sep (a +:+ String sep b) = split sep a ++ split sep b.
Proof.
  induction a as [|c a IH]; simpl.
  - now rewrite Ascii.eqb_refl.
  - destruct (Ascii.eqb c sep).
    + now rewrite IH.
    + rewrite IH. pose proof (split_not_nil sep a) as Hne.
      destruct (split sep a) as [|w ws]; [now destruct Hne | reflexivity].
Qed.

Lemma split_no_sep (sep : ascii) (s : string) :
  mem sep s = false -> split sep s = [s].
Proof.
  induction s as [|c s IH]; simpl; intros H; [reflexivity|].
  apply orb_false_iff in H as [Hc Hs].
  rewrite Ascii.eqb_sym, Hc. now rewrite (IH Hs).
Qed.

(** What [lstrip] and [rstrip] remove is a run of characters of [chars],
    and what they leave does not begin (end) with such a character. *)
Lemma lstrip_spec (chars s : string) :
  exists run, s = run +:+ lstrip chars s /\ all_in chars run = true.
Proof.
  induction s as [|c s (run & Hs & Hrun)]; simpl.
  - now exists "".
  - destruct (mem c chars) eqn:Hc.
    + exists (String c run). simpl. rewrite Hc, Hrun. now rewrite <- Hs.
    + now exists "".
Qed.

Lemma lstrip_head (chars s : string) (c : ascii) (t : string) :
  lstrip chars s = String c t -> mem c chars = false.
Proof.
  induction s as [|d s IH]; simpl; [discriminate|].
  destruct (mem d chars) eqn:Hd; [exact IH|].
  intros [= -> _]. exact Hd.
Qed.

Lemma rstrip_spec (chars s : string) :
  exists run, s = rstrip chars s +:+ run /\ all_in chars run = true.
Proof.
  unfold str. induction s as [|c s (run & Hs & Hrun)]; simpl.
  - now exists "".
  - destruct (rstrip chars s) as [|d r] eqn:Hr.
    + destruct (mem c chars) eqn:Hc.
      * exists (String c run). simpl in *. rewrite Hc, Hrun.
        split; [congruence | reflexivity].
      * exists run. simpl in *. split; [congruence | exact Hrun].
    + exists run. split; [|exact Hrun]. simpl in *. congruence.
Qed.

Lemma rstrip_last (chars s t : string) (c : ascii) :
  rstrip chars s = t +:+ str c -> mem c chars = false.
Proof.
  unfold str. revert t. induction s as [|d s IH]; intros t; simpl.
  - destruct t; discriminate.
  - destruct (rstrip chars s) as [|e r] eqn:Hr.
    + destruct (mem d chars) eqn:Hd.
      * destruct t; discriminate.
      * destruct t as [|x t]; simpl.
        -- intros [= ->]. exact Hd.
        -- destruct t; discriminate.
    + destruct t as [|x t]; simpl.
      * discriminate.
      * intros [= _ Ht]. now apply (IH t).
Qed.

Lemma rstrip_head (chars s : string) (c : ascii) (t : string) :
  rstrip chars s = String c t -> exists t', s = String c t'.
Proof.
  unfold str. destruct s as [|d s]; simpl; [discriminate|].
  destruct (rstrip chars s); [destruct (mem d chars)|];
    intros [= -> _]; eauto.
Qed.

(** [strip]: a run of [chars] on the left, a run on the right, and between
    them a text that neither begins nor ends with a character of [chars]. *)
Lemma strip_spec (chars s : string) :
  (exists left right,
      s = left +:+ strip chars s +:+ right
      /\ all_in chars left = true /\ all_in chars right = true)
  /\ (forall c t, strip chars s = String c t -> mem c chars = false)
  /\ (forall c t, strip chars s = t +:+ str c -> mem c chars = false).
Proof.
  unfold strip. split; [|split].
  - destruct (lstrip_spec chars s) as (left & Hl & Hleft).
    destruct (rstrip_spec chars (lstrip chars s)) as (right & Hr & Hright).
    exists left, right. split; [|now split].
    now rewrite <- Hr.
  - intros c t H. destruct (rstrip_head _ _ _ _ H) as [t' Ht'].
    now apply (lstrip_head chars s c t').
  - intros c t. apply rstrip_last.
Qed.

Lemma index_neg_1 {A : Type} (pre : list A) (x : A) :
  index_neg (pre ++ [x]) 1 = OK x.
Proof.
  unfold index_neg. rewrite length_app. cbn [length].
  destruct (Nat.leb_spec 1 (length pre + 1)); [|lia].
  replace (length pre + 1 - 1) with (length pre) by lia.
  rewrite nth_error_app2 by lia. now rewrite Nat.sub_diag.
Qed.

Lemma index_neg_2 {A : Type} (pre : list A) (y x : A) :
  index_neg (pre ++ [y; x]) 2 = OK y.
Proof.
  unfold index_neg. rewrite length_app. cbn [length].
  destruct (Nat.leb_spec 2 (length pre + 2)); [|lia].
  replace (length pre + 2 - 2) with (length pre) by lia.
  rewrite nth_error_app2 by lia. now rewrite Nat.sub_diag.
Qed.

Lemma index_neg_1_of_2 {A : Type} (pre : list A) (y x : A) :
  index_neg (pre ++ [y; x]) 1 = OK x.
Proof.
  replace (pre ++ [y; x]) with ((pre ++ [y]) ++ [x])
    by now rewrite <- app_assoc.
  apply index_neg_1.
Qed.

End StringFacts.

(** ** The output parser *)

Section ParserFacts.
Import PyStr MRKL.

Lemma nonempty_lines_app (a b : string) :
  nonempty_lines (a +:+ String nl b) = nonempty_lines a ++ nonempty_lines b.
Proof. unfold nonempty_lines. now rewrite split_app, List.filter_app. Qed.

Lemma nonempty_lines_single (l : string) :
  mem nl l = false -> truthy l = true -> nonempty_lines l = [l].
Proof.
  intros Hnl Hl. unfold nonempty_lines. rewrite (split_no_sep _ _ Hnl).
  simpl. now rewrite Hl.
Qed.

Lemma nonempty_lines_newlines (n : nat) :
  nonempty_lines (String.concat "" (repeat (str nl) n)) = [].
Proof.
  unfold nonempty_lines.
  assert (H : forall k, List.filter truthy (split nl (String.concat "" (repeat (str nl) k))) = []).
  { induction k as [|k IH]; [reflexivity|].
    destruct k as [|k]; [reflexivity|].
    change (repeat (str nl) (S (S k))) with (str nl :: repeat (str nl) (S k)).
    change (String.concat "" (str nl :: repeat (str nl) (S k)))
      with (str nl +:+ "" +:+ String.concat "" (repeat (str nl) (S k))).
    unfold str. simpl. exact IH. }
  apply H.
Qed.

(** Whatever text comes before it, a last line that is the marker followed
    by an answer with no newline in it is the last non-empty line. *)
Lemma final_line_after_any_text (before X : string) :
  mem nl X = false ->
  nonempty_lines (before +:+ String nl (FINAL_ANSWER_ACTION +:+ X))
  = nonempty_lines before ++ [FINAL_ANSWER_ACTION +:+ X].
Proof.
  intros HX. rewrite nonempty_lines_app. f_equal.
  apply nonempty_lines_single; [exact HX | reflexivity].
Qed.

(** The test is on [Final Answer] alone, while the answer starts after as
    many characters as [FINAL_ANSWER_ACTION] has: a line with no space
    after the colon loses the first character of its answer. *)
Example final_answer_without_space :
  get_action_and_input "Final Answer:42" = OK ("Final Answer", "2").
Proof. reflexivity. Qed.

(** C3.  The line [Final Answer:42] begins with the marker [Final Answer:]
    and what follows the marker is [42]; [get_action_and_input] tests the
    twelve characters of [Final Answer] and then cuts as many characters as
    [FINAL_ANSWER_ACTION] has, fourteen, so that the answer it returns is
    [2]. *)
Theorem final_answer_loses_a_character :
  nonempty_lines "Final Answer:42" = ["Final Answer:42"]
  /\ startswith "Final Answer:42" "Final Answer:" = true
  /\ slice_from (String.length "Final Answer:") "Final Answer:42" = "42"
  /\ get_action_and_input "Final Answer:42" = OK ("Final Answer", "2")
  /\ get_action_and_input "Final Answer:42" <> OK ("Final Answer", "42").
Proof. repeat split; vm_compute; congruence. Qed.

(** When the last non-empty line of the model's text is [Final Answer: ],
    with its space, followed by [X], whatever the lines before it,
    [get_action_and_input] returns the final-answer directive with [X],
    the rest of that line, as the answer. *)
Theorem final_answer_directive (llm_output : string) (pre : list string)
    (X : string) :
  nonempty_lines llm_output = pre ++ [FINAL_ANSWER_ACTION +:+ X] ->
  get_action_and_input llm_output = OK ("Final Answer", X).
Proof.
  intros Hps. unfold get_action_and_input. rewrite Hps, index_neg_1.
  cbn [rbind].
  change (FINAL_ANSWER_ACTION +:+ X) with ("Final Answer" +:+ (": " +:+ X)) at 1.
  rewrite startswith_app.
  now rewrite slice_from_app.
Qed.

Lemma final_answer_directive_witness :
  nonempty_lines Examples.thought_then_final
    = ["Thought: I now know the final answer"] ++ [FINAL_ANSWER_ACTION +:+ "4"]
  /\ get_action_and_input Examples.thought_then_final = OK ("Final Answer", "4").
Proof.
  split; [reflexivity|].
  apply (final_answer_directive _ ["Thought: I now know the final answer"] "4").
  reflexivity.
Defined.

(** C4 as the code has it.  When the last two non-empty lines are
    [Action: A] and [Action Input: B], the action is [A] as it stands and
    the action input is [B] without its leading and trailing spaces and
    then without its leading and trailing double quotes: all of them, on
    either end, whether or not the other end has one. *)
Theorem action_directive (llm_output : string) (pre : list string)
    (A B : string) :
  nonempty_lines llm_output
    = pre ++ ["Action: " +:+ A; "Action Input: " +:+ B] ->
  exists spaces_l spaces_r quotes_l quotes_r action_input,
    get_action_and_input llm_output = OK (A, action_input)
    /\ B = spaces_l +:+ (quotes_l +:+ action_input +:+ quotes_r) +:+ spaces_r
    /\ all_in (str space) spaces_l = true
    /\ all_in (str space) spaces_r = true
    /\ all_in (str dquote) quotes_l = true
    /\ all_in (str dquote) quotes_r = true
    /\ (forall c t, quotes_l +:+ action_input +:+ quotes_r = String c t -> c <> space)
    /\ (forall c t, quotes_l +:+ action_input +:+ quotes_r = t +:+ str c -> c <> space)
    /\ (forall c t, action_input = String c t -> c <> dquote)
    /\ (forall c t, action_input = t +:+ str c -> c <> dquote).
Proof.
  intros Hps.
  destruct (strip_spec (str space) B) as ((sl & sr & HB & Hsl & Hsr) & Hh & Ht).
  destruct (strip_spec (str dquote) (strip (str space) B))
    as ((ql & qr & HQ & Hql & Hqr) & Hh' & Ht').
  exists sl, sr, ql, qr, (strip (str dquote) (strip (str space) B)).
  assert (Hne : forall c d, mem c (str d) = false -> c <> d).
  { intros c d H ->. simpl in H. now rewrite Ascii.eqb_refl in H. }
  repeat split; try assumption.
  - unfold get_action_and_input. rewrite Hps, index_neg_1_of_2.
    cbn [rbind].
    change (startswith ("Action Input: " +:+ B) "Final Answer") with false.
    cbn iota. rewrite startswith_app. cbn [negb].
    rewrite index_neg_2. cbn [rbind].
    rewrite startswith_app. cbn [negb].
    now rewrite !slice_from_app.
  - now rewrite <- HQ.
  - intros c t H. apply Hne, (Hh c t). now rewrite HQ.
  - intros c t H. apply Hne, (Ht c t). now rewrite HQ.
  - intros c t H. now apply Hne, (Hh' c t).
  - intros c t H. now apply Hne, (Ht' c t).
Qed.

Lemma action_directive_witness :
  nonempty_lines Examples.calculator_call
    = ["Thought: I need to compute"]
      ++ ["Action: " +:+ "Calculator";
          "Action Input: " +:+ Examples.quoted_input]
  /\ exists action_input,
       get_action_and_input Examples.calculator_call
         = OK ("Calculator", action_input)
       /\ action_input = "2+2".
Proof.
  split; [reflexivity|].
  destruct (action_directive Examples.calculator_call
              ["Thought: I need to compute"] "Calculator"
              Examples.quoted_input eq_refl)
    as (_ & _ & _ & _ & action_input & Hparse & _).
  exists action_input. split; [exact Hparse|].
  vm_compute in Hparse. now injection Hparse.
Defined.

(** C4 as the design document has it fails: a quote on one end only is
    removed all the same. *)
Lemma one_sided_quote_is_stripped :
  nonempty_lines Examples.half_quoted_call
    = ["Action: " +:+ "Search";
       "Action Input: " +:+ Examples.half_quoted_input]
  /\ get_action_and_input Examples.half_quoted_call = OK ("Search", "2+2")
  /\ get_action_and_input Examples.half_quoted_call
       <> OK ("Search", Spec.action_input Examples.half_quoted_input).
Proof. repeat split; vm_compute; congruence. Qed.

(** C5.  The line [Final Answer is 4] begins neither with the marker
    [Final Answer:] nor with [Action Input:]; [get_action_and_input] tests
    the twelve characters of [Final Answer] alone, takes the line for a
    final answer and returns, where a [ValueError] was due. *)
Theorem final_answer_prefix_is_accepted :
  nonempty_lines "Final Answer is 4" = ["Final Answer is 4"]
  /\ startswith "Final Answer is 4" "Final Answer:" = false
  /\ startswith "Final Answer is 4" "Action Input:" = false
  /\ get_action_and_input "Final Answer is 4" = OK ("Final Answer", "s 4")
  /\ (forall msg,
        get_action_and_input "Final Answer is 4" <> Raise (ValueError msg)).
Proof. repeat split; vm_compute; congruence. Qed.

(** When the last non-empty line does not begin with [Final Answer],
    [get_action_and_input] raises its [ValueError] exactly when that line
    does not begin with [Action Input: ] or the non-empty line before it
    does not begin with [Action: ]; the message of the error tells which
    of the two it was. *)
Theorem malformed_directive (llm_output : string) (pre : list string)
    (l1 : string) :
  nonempty_lines llm_output = pre ++ [l1] ->
  startswith l1 "Final Answer" = false ->
  let bad_input := startswith l1 "Action Input: " = false in
  let bad_action :=
    exists l2, last pre = Some l2 /\ startswith l2 "Action: " = false in
  ((exists msg, get_action_and_input llm_output = Raise (ValueError msg))
     <-> bad_input \/ bad_action)
  /\ (bad_input ->
        get_action_and_input llm_output
          = Raise (ValueError no_action_input_msg))
  /\ (~ bad_input -> bad_action ->
        get_action_and_input llm_output = Raise (ValueError no_action_msg))
  /\ no_action_input_msg <> no_action_msg.
Proof.
  intros Hps Hfa bad_input bad_action. subst bad_input bad_action.
  unfold get_action_and_input. rewrite Hps, index_neg_1. cbn [rbind].
  rewrite Hfa.
  destruct (startswith l1 "Action Input: ") eqn:Hai; cbn [negb].
  - destruct pre as [|l2 pre' _] using rev_ind.
    + cbn. repeat split; try congruence; try discriminate.
      * intros [msg [=]].
      * intros [[=] | (l2 & [=] & _)].
      * intros _ (l2 & [=] & _).
    + rewrite <- app_assoc. cbn [List.app]. rewrite index_neg_2.
      cbn [rbind]. rewrite last_snoc.
      destruct (startswith l2 "Action: ") eqn:Hact; cbn [negb].
      * repeat split; try congruence; try discriminate.
        -- intros [msg [=]].
        -- intros [[=] | (l & [= <-] & H)]. congruence.
        -- intros _ (l & [= <-] & H). congruence.
      * repeat split; try congruence; try discriminate; eauto.
  - repeat split; try congruence; try discriminate; eauto.
Qed.

Lemma malformed_directive_witness :
  get_action_and_input Examples.input_without_action
    = Raise (ValueError no_action_msg).
Proof.
  refine (proj1 (proj2 (proj2
            (malformed_directive Examples.input_without_action
               ["Thought: I should look this up"] "Action Input: Y"
               eq_refl eq_refl))) _ _).
  - vm_compute. discriminate.
  - exists "Thought: I should look this up". split; reflexivity.
Defined.

(** C10 as the code has it.  A text with no non-empty line (the empty
    text, or newlines only) and a text whose one non-empty line begins
    with [Action Input: ] make [get_action_and_input] raise [IndexError];
    a text whose one non-empty line begins neither with [Final Answer]
    nor with [Action Input: ] -- a line of spaces, say -- makes it raise
    the [ValueError] about the last line. *)
Theorem short_outputs :
  (forall llm_output,
      nonempty_lines llm_output = [] ->
      get_action_and_input llm_output = Raise IndexError)
  /\ (forall n,
        get_action_and_input (String.concat "" (repeat (str nl) n))
          = Raise IndexError)
  /\ (forall llm_output l,
        nonempty_lines llm_output = [l] ->
        startswith l "Final Answer" = false ->
        startswith l "Action Input: " = true ->
        get_action_and_input llm_output = Raise IndexError)
  /\ (forall llm_output l,
        nonempty_lines llm_output = [l] ->
        startswith l "Final Answer" = false ->
        startswith l "Action Input: " = false ->
        get_action_and_input llm_output
          = Raise (ValueError no_action_input_msg)).
Proof.
  assert (H0 : forall llm_output, nonempty_lines llm_output = [] ->
               get_action_and_input llm_output = Raise IndexError).
  { intros llm_output H. unfold get_action_and_input. now rewrite H. }
  repeat split.
  - exact H0.
  - intros n. apply H0, nonempty_lines_newlines.
  - intros llm_output l H Hfa Hai. unfold get_action_and_input.
    rewrite H. cbn. now rewrite Hfa, Hai.
  - intros llm_output l H Hfa Hai. unfold get_action_and_input.
    rewrite H. cbn. now rewrite Hfa, Hai.
Qed.

Lemma short_outputs_witness :
  get_action_and_input "" = Raise IndexError
  /\ get_action_and_input Examples.lone_action_input = Raise IndexError
  /\ get_action_and_input "hello"
       = Raise (ValueError no_action_input_msg).
Proof.
  destruct short_outputs as (H0 & _ & H1 & H2). split; [|split].
  - apply H0. reflexivity.
  - apply (H1 _ Examples.lone_action_input); reflexivity.
  - apply (H2 _ "hello"); reflexivity.
Defined.

(** C10 as stated fails: a text of spaces has fewer than two non-empty
    lines and is no final answer, and the error is the [ValueError]. *)
Lemma blank_text_is_malformed :
  nonempty_lines Examples.blank_text = [Examples.blank_text]
  /\ startswith Examples.blank_text "Final Answer" = false
  /\ get_action_and_input Examples.blank_text
       = Raise (ValueError no_action_input_msg)
  /\ get_action_and_input Examples.blank_text <> Raise IndexError.
Proof. repeat split; vm_compute; congruence. Qed.

End ParserFacts.

(** ** The agent loop *)

Section LoopFacts.
Import PyStr MRKL.

(** Running [k + m] passes is running [k] passes and, if the loop is
    still going, [m] more from where it stands. *)
Lemma while_true_app (k m : nat) (self : MRKLAgent) (t q : string)
    (w : world) :
  while_true (k + m) self t q w
  = match while_true k self t q w with
    | (OK (Running q'), w') => while_true m self t q' w'
    | other => other
    end.
Proof.
  revert q w. induction k as [|k IH]; intros q w; [reflexivity|].
  cbn [Nat.add while_true]. unfold bind.
  destruct (loop_body self t q w) as [[[answer|q']|e] w']; try reflexivity.
  apply IH.
Qed.

(** One pass in which the model names an action other than
    [Final Answer]. *)
Lemma loop_body_act (self : MRKLAgent) (t q : string) (w : world)
    (llm_output : string) (rest : list string) (action action_input : string) :
  prompt_node self (calls w) t = llm_output :: rest ->
  get_action_and_input llm_output = OK (action, action_input) ->
  action <> "Final Answer" ->
  loop_body self t q w
  = match tool_map self !! action with
    | None =>
        (Raise (KeyError action),
         {| calls := S (calls w); trace := trace w ++ [Prompted t] |})
    | Some next_pipeline =>
        let w' := {| calls := S (calls w);
                     trace := (trace w ++ [Prompted t])
                              ++ [Invoked action action_input] |} in
        match next_pipeline action_input !! "output" with
        | Some observation => (OK (Running (q +:+ observation)), w')
        | None => (Raise (KeyError "output"), w')
        end
    end.
Proof.
  intros Hpred Hparse Hact.
  unfold loop_body, bind, call_prompt_node, lift, first. rewrite Hpred, Hparse.
  apply String.eqb_neq in Hact. rewrite Hact.
  unfold getitem. destruct (tool_map self !! action) as [p|]; [|reflexivity].
  unfold call_pipeline. cbn [calls trace].
  now destruct (p action_input !! "output").
Qed.

(** Every pass sends the template once, whatever else it does. *)
Lemma loop_body_prompts (self : MRKLAgent) (t q : string) (w : world) :
  prompts (trace (snd (loop_body self t q w))) = prompts (trace w) ++ [t].
Proof.
  unfold loop_body, bind, call_prompt_node, lift, prompts.
  destruct (first _) as [llm_output|e]; cbn [snd trace];
    [|now rewrite omap_app].
  destruct (get_action_and_input llm_output) as [[action action_input]|e];
    cbn [snd trace]; [|now rewrite omap_app].
  destruct (String.eqb action "Final Answer"); cbn [ret snd trace];
    [now rewrite omap_app|].
  destruct (getitem (tool_map self) action) as [p|e]; cbn [snd trace];
    [|now rewrite omap_app].
  unfold call_pipeline. cbn [calls trace].
  destruct (getitem (p action_input) "output"); cbn [ret snd trace];
    rewrite !omap_app; cbn; now rewrite app_nil_r.
Qed.

Lemma while_true_prompts (fuel : nat) (self : MRKLAgent) (t q : string)
    (w : world) :
  exists k, k <= fuel
    /\ prompts (trace (snd (while_true fuel self t q w)))
       = prompts (trace w) ++ repeat t k.
Proof.
  revert q w. induction fuel as [|fuel IH]; intros q w.
  - exists 0. split; [lia|]. cbn. now rewrite app_nil_r.
  - cbn [while_true]. unfold bind.
    pose proof (loop_body_prompts self t q w) as Hbody.
    destruct (loop_body self t q w) as [[[answer|q']|e] w']; cbn [snd] in *.
    + exists 1. split; [lia|]. cbn [ret snd]. exact Hbody.
    + destruct (IH q' w') as (k & Hk & Hprompts). exists (S k).
      split; [lia|]. rewrite Hprompts, Hbody, <- app_assoc. reflexivity.
    + exists 1. split; [lia|]. exact Hbody.
Qed.

(** C1 as the code has it.  When a pass of the loop gets an action other
    than [Final Answer] from the model, finds its tool and gets an
    observation from it, the tool has been invoked once, with the action
    input, and the working [query] of [run] is the one before with the
    observation, and nothing else, concatenated at its end. *)
Theorem observation_appended (fuel : nat) (self : MRKLAgent)
    (query0 q : string) (w0 w : world) (llm_output : string)
    (rest : list string) (action action_input : string)
    (next_pipeline : Pipeline) (observation : string) :
  run fuel self query0 w0 = (OK (Running q), w) ->
  prompt_node self (calls w) (template query0) = llm_output :: rest ->
  get_action_and_input llm_output = OK (action, action_input) ->
  action <> "Final Answer" ->
  tool_map self !! action = Some next_pipeline ->
  next_pipeline action_input !! "output" = Some observation ->
  exists w',
    run (S fuel) self query0 w0 = (OK (Running (q +:+ observation)), w')
    /\ invocations (trace w')
       = invocations (trace w) ++ [(action, action_input)].
Proof.
  intros Hrun Hpred Hparse Hact Htool Hobs.
  unfold run in *. rewrite <- Nat.add_1_r, while_true_app, Hrun.
  cbn [while_true]. unfold bind.
  rewrite (loop_body_act _ _ _ _ _ _ _ _ Hpred Hparse Hact), Htool.
  cbn zeta. rewrite Hobs. eexists. split; [reflexivity|].
  unfold invocations. cbn [trace]. rewrite !omap_app. cbn.
  now rewrite app_nil_r.
Qed.

Lemma observation_appended_witness :
  exists w',
    run 1 Examples.calc_agent "What is 2+2?" start
      = (OK (Running ("What is 2+2?" +:+ "4")), w')
    /\ invocations (trace w')
       = invocations (trace start) ++ [("Calculator", "2+2")].
Proof.
  apply (observation_appended 0 Examples.calc_agent "What is 2+2?"
           "What is 2+2?" start start Examples.calculator_call []
           "Calculator" "2+2" Examples.calculator "4");
    try reflexivity.
  discriminate.
Defined.

(** C1 as stated fails: after the calculator has answered 4, the prompt
    of the next call of the model is the prompt of the first call and has
    no 4 in it; and the working query has the observation at its end but
    neither the name of the action nor its input. *)
Lemma next_prompt_ignores_observation :
  exists p1 p2 w,
    run 2 Examples.calc_agent "What is 2+2?" start = (OK (Returned "4"), w)
    /\ trace w = [Prompted p1; Invoked "Calculator" "2+2"; Prompted p2]
    /\ p2 = p1
    /\ contains p2 "4" = false
    /\ fst (run 1 Examples.calc_agent "What is 2+2?" start)
       = OK (Running "What is 2+2?4")
    /\ contains "What is 2+2?4" "Calculator" = false
    /\ contains "What is 2+2?4" "2+24" = false.
Proof.
  exists (template "What is 2+2?"), (template "What is 2+2?").
  eexists. repeat split; vm_compute; reflexivity.
Qed.

(** C2 as the code has it.  The prompt that [run] assembles, and sends at
    its first call of the model, is made of the fixed preamble, a catalogue
    with one line [name: description] for each tool of the list written in
    [run] itself (Calculator and Search), the format instructions that name
    the tools of that catalogue, the original query and the scratchpad as
    it stands when the prompt is assembled, with blank lines between the
    parts.  The tools in the agent's [tool_map] have no part in it. *)
Theorem prompt_composition (fuel : nat) (self : MRKLAgent) (query : string) :
  let agent_scratchpad := "" in
  let catalog :=
    "Calculator: useful for when you need to answer questions about math"
    +:+ str nl +:+
    "Search: useful for when you need to answer questions about current events. You should ask targeted questions" in
  let prompt :=
    prefix +:+ str nl +:+ str nl +:+
    catalog +:+ str nl +:+ str nl +:+
    format_instructions +:+ str nl +:+ str nl +:+
    "Begin!" +:+ str nl +:+
    "Question: " +:+ query +:+ str nl +:+
    "Thought: " +:+ agent_scratchpad +:+ str nl +:+
    "        " in
  head (prompts (trace (snd (run (S fuel) self query start)))) = Some prompt
  /\ catalog
       = join (str nl) (map (fun t => name t +:+ ": " +:+ description t) tools)
  /\ map name tools = ["Calculator"; "Search"]
  /\ contains format_instructions
       ("one of [" +:+ join ", " (map name tools) +:+ "]") = true.
Proof.
  intros agent_scratchpad catalog prompt.
  assert (Ht : template query = prompt) by reflexivity.
  split; [|split; [|split]]; try reflexivity.
  unfold run. rewrite Ht. cbn [while_true]. unfold bind.
  pose proof (loop_body_prompts self prompt query start) as Hbody.
  destruct (loop_body self prompt query start) as [[[answer|q']|e] w'];
    cbn [snd ret] in *.
  - now rewrite Hbody.
  - destruct (while_true_prompts fuel self prompt q' w') as (k & _ & H).
    rewrite H, Hbody. reflexivity.
  - now rewrite Hbody.
Qed.

(** C2 as stated fails: the agent whose registry holds the weather tool
    alone advertises the calculator and the search, and no weather tool. *)
Lemma catalog_ignores_registry :
  exists p,
    tool_map Examples.forecast_agent = {[ "Weather" := Examples.forecast ]}
    /\ prompts (trace (snd (run 1 Examples.forecast_agent "Rain today?" start)))
       = [p]
    /\ contains p "Weather" = false
    /\ contains p "Calculator: " = true
    /\ contains p "Search: " = true.
Proof.
  exists (template "Rain today?"). repeat split; vm_compute; reflexivity.
Qed.

(** C6 as stated fails: the action [Final Answer] of the lines
    [Action: Final Answer] and [Action Input: 42] has no entry in the
    registry, and [run] returns [42]: the name is taken for the final answer
    before the registry is looked at. *)
Lemma final_answer_action_is_not_looked_up :
  nonempty_lines Reading.final_as_action
    = ["Action: " +:+ "Final Answer"; "Action Input: " +:+ "42"]
  /\ get_action_and_input Reading.final_as_action = OK ("Final Answer", "42")
  /\ tool_map Reading.unshadowed_agent !! "Final Answer" = None
  /\ exists w,
       run 1 Reading.unshadowed_agent "What is 6 times 7?" start
         = (OK (Returned "42"), w)
       /\ invocations (trace w) = [].
Proof.
  repeat split; try (vm_compute; reflexivity).
  eexists. split; vm_compute; reflexivity.
Qed.

(** C6 as the code has it.  When the loop is at a pass in which the model
    names an action, other than [Final Answer], that has no entry in
    [tool_map], [run]
    raises [KeyError] for that action: whatever the number of passes still
    allowed, the error is the result of [run], no tool has been invoked
    since, and the model has not been called again. *)
Theorem unknown_tool (fuel more : nat) (self : MRKLAgent)
    (query0 q : string) (w0 w : world) (llm_output : string)
    (rest : list string) (action action_input : string) :
  run fuel self query0 w0 = (OK (Running q), w) ->
  prompt_node self (calls w) (template query0) = llm_output :: rest ->
  get_action_and_input llm_output = OK (action, action_input) ->
  action <> "Final Answer" ->
  tool_map self !! action = None ->
  exists w',
    run (fuel + S more) self query0 w0 = (Raise (KeyError action), w')
    /\ invocations (trace w') = invocations (trace w)
    /\ prompts (trace w') = prompts (trace w) ++ [template query0].
Proof.
  intros Hrun Hpred Hparse Hact Htool.
  unfold run in *. rewrite while_true_app, Hrun.
  cbn [while_true]. unfold bind.
  rewrite (loop_body_act _ _ _ _ _ _ _ _ Hpred Hparse Hact), Htool.
  eexists. split; [reflexivity|].
  unfold invocations, prompts. cbn [trace]. rewrite !omap_app. cbn.
  split; [now rewrite app_nil_r | reflexivity].
Qed.

Lemma unknown_tool_witness :
  exists w',
    run (0 + 3) Examples.no_weather_agent "Rain in Paris?" start
      = (Raise (KeyError "Weather"), w')
    /\ invocations (trace w') = invocations (trace start)
    /\ prompts (trace w')
       = prompts (trace start) ++ [template "Rain in Paris?"].
Proof.
  apply (unknown_tool 0 2 Examples.no_weather_agent "Rain in Paris?"
           "Rain in Paris?" start start Examples.weather_call []
           "Weather" "Paris");
    try reflexivity.
  discriminate.
Defined.

End LoopFacts.

(** ** The schema generator *)

Section ServiceFacts.
Import PyStr Service.

Lemma elem_In (x : string) (l : list string) : elem x l = true <-> In x l.
Proof.
  unfold elem. rewrite existsb_exists. split.
  - intros (y & Hy & Heq). apply String.eqb_eq in Heq. now subst.
  - intros H. exists x. split; [exact H | apply String.eqb_refl].
Qed.

Lemma filter_none {A : Type} (p : A -> bool) (l : list A) :
  (forall a, In a l -> p a = false) -> List.filter p l = [].
Proof.
  induction l as [|a l IH]; intros H; [reflexivity|]. cbn.
  rewrite (H a (or_introl eq_refl)). apply IH. intros b Hb. apply H. now right.
Qed.

(** With distinct names, the names that are not among the last ones are
    the first ones. *)
Lemma filter_not_in_tail (l : list string) (k : nat) :
  NoDup l ->
  List.filter (fun a => negb (elem a (skipn k l)) && not_self a) l
  = List.filter not_self (firstn k l).
Proof.
  intros Hnd.
  transitivity
    (List.filter (fun a => negb (elem a (skipn k l)) && not_self a)
       (firstn k l ++ skipn k l)); [now rewrite firstn_skipn|].
  rewrite <- (firstn_skipn k l) in Hnd.
  apply NoDup_app in Hnd as (_ & Hdisj & _).
  rewrite List.filter_app, (filter_none _ (skipn k l)), app_nil_r.
  - apply List.filter_ext_in. intros a Ha.
    destruct (elem a (skipn k l)) eqn:He; [|reflexivity].
    apply elem_In in He. exfalso.
    apply (Hdisj a); now apply list_elem_of_In.
  - intros a Ha. apply elem_In in Ha. now rewrite Ha.
Qed.

Lemma required_args_spec (func_info : FullArgSpec) :
  NoDup (args func_info) ->
  required_args func_info
  = List.filter not_self
      (firstn (length (args func_info)
               - match defaults func_info with
                 | Some ds => length ds
                 | None => 0
                 end)
         (args func_info)).
Proof.
  intros Hnd. unfold required_args, optional_args.
  destruct (defaults func_info) as [[|d ds]|].
  - rewrite Nat.sub_0_r, firstn_all. reflexivity.
  - unfold last_n. now apply filter_not_in_tail.
  - rewrite Nat.sub_0_r, firstn_all. reflexivity.
Qed.

Lemma assoc_setitem_eq {V : Type} (d : list (string * V)) (k : string) (v : V) :
  assoc (setitem d k v) k = Some v.
Proof.
  induction d as [|[k' v'] d IH]; cbn.
  - now rewrite String.eqb_refl.
  - destruct (String.eqb k' k) eqn:E; cbn; rewrite E; [reflexivity | exact IH].
Qed.

Lemma assoc_setitem_ne {V : Type} (d : list (string * V)) (k k' : string) (v : V) :
  k <> k' -> assoc (setitem d k v) k' = assoc d k'.
Proof.
  intros Hne. induction d as [|[k0 v0] d IH]; cbn.
  - apply String.eqb_neq in Hne. now rewrite Hne.
  - destruct (String.eqb k0 k) eqn:E; cbn.
    + apply String.eqb_eq in E. subst k0.
      apply String.eqb_neq in Hne. now rewrite Hne.
    + now rewrite IH.
Qed.

Lemma setitem_fresh {V : Type} (d : list (string * V)) (k : string) (v : V) :
  assoc d k = None -> setitem d k v = d ++ [(k, v)].
Proof.
  induction d as [|[k' v'] d IH]; cbn; [reflexivity|].
  destruct (String.eqb k' k); [discriminate|]. intros H. now rewrite IH.
Qed.

(** [index] is called where [in] has answered yes: it does not raise. *)
Lemma param_description_total (docstring arg : string) :
  exists desc, param_description docstring arg = OK desc.
Proof.
  unfold param_description, contains at 1, index.
  destruct (find (":param " +:+ arg +:+ ":") docstring 0); eauto.
Qed.

(** The loop over the arguments stops at the first one, other than
    [self], that has no annotation. *)
Lemma describe_args_untyped (fname docstring : string)
    (anns : gmap string annotation) (todo : list string)
    (props : list (string * param_info)) :
  (exists arg, In arg todo /\ arg <> "self"
               /\ annotation_given (anns !! arg) = false) ->
  exists arg, In arg todo /\ arg <> "self"
              /\ annotation_given (anns !! arg) = false
              /\ describe_args fname docstring anns todo props
                 = Raise (ValueError (no_annotation_msg arg fname)).
Proof.
  revert props. induction todo as [|a todo IH]; intros props (arg & Hin & Hns & Hna).
  - destruct Hin.
  - cbn [describe_args].
    assert (Hrest : a = arg \/ In arg todo) by exact Hin.
    destruct (String.eqb a "self") eqn:Hself.
    + apply String.eqb_eq in Hself.
      destruct Hrest as [->|Hin']; [contradiction|].
      destruct (IH props (ex_intro _ arg (conj Hin' (conj Hns Hna))))
        as (b & Hb & Hbs & Hbn & Hrun).
      exists b. repeat split; try assumption. now right.
    + apply String.eqb_neq in Hself.
      destruct (anns !! a) as [ann|] eqn:Hann.
      * destruct (ann_truthy ann) eqn:Htr; cbn [negb].
        -- destruct (param_description_total docstring a) as (desc & ->).
           cbn [rbind].
           destruct Hrest as [->|Hin'].
           ++ rewrite Hann in Hna. cbn in Hna. congruence.
           ++ destruct (IH (setitem props a
                             {| p_type := lower (ann_str ann);
                                p_description := desc;
                                p_enum := ann_members ann |})
                          (ex_intro _ arg (conj Hin' (conj Hns Hna))))
                as (b & Hb & Hbs & Hbn & Hrun).
              exists b. repeat split; try assumption. now right.
        -- exists a. repeat split; try assumption; [now left|].
           rewrite Hann. exact Htr.
      * exists a. repeat split; try assumption; [now left|].
        now rewrite Hann.
Qed.

Lemma describe_args_typed (fname docstring : string)
    (anns : gmap string annotation) (todo : list string)
    (props props' : list (string * param_info)) :
  describe_args fname docstring anns todo props = OK props' ->
  (forall k info, assoc props k = Some info -> typed anns k info) ->
  (forall k info, assoc props' k = Some info -> typed anns k info)
  /\ (forall k, is_Some (assoc props k) \/ (In k todo /\ k <> "self") ->
                is_Some (assoc props' k)).
Proof.
  revert props. induction todo as [|a todo IH]; intros props Hrun Hgood.
  - cbn in Hrun. injection Hrun as <-. split; [exact Hgood|].
    intros k [H|[[] _]]. exact H.
  - cbn [describe_args] in Hrun.
    destruct (String.eqb a "self") eqn:Hself.
    + apply String.eqb_eq in Hself. subst a.
      destruct (IH props Hrun Hgood) as [H1 H2]. split; [exact H1|].
      intros k [H|[[<-|H] Hk]]; [apply H2; now left | contradiction |].
      apply H2. now right.
    + apply String.eqb_neq in Hself.
      destruct (anns !! a) as [ann|] eqn:Hann; [|discriminate].
      destruct (ann_truthy ann) eqn:Htr; cbn [negb] in Hrun; [|discriminate].
      destruct (param_description_total docstring a) as (desc & Hdesc).
      rewrite Hdesc in Hrun. cbn [rbind] in Hrun.
      apply IH in Hrun as [H1 H2].
      * split; [exact H1|]. intros k Hk. apply H2.
        destruct (String.eqb_spec a k) as [<-|Hne].
        -- left. rewrite assoc_setitem_eq. eauto.
        -- destruct Hk as [Hk|[[->|Hk] Hks]].
           ++ left. now rewrite assoc_setitem_ne.
           ++ contradiction.
           ++ right. now split.
      * intros k info. destruct (String.eqb_spec a k) as [<-|Hne].
        -- rewrite assoc_setitem_eq. intros [= <-]. exists ann. now cbn.
        -- rewrite assoc_setitem_ne by assumption. apply Hgood.
Qed.

(** With distinct names, the keys of [properties] are the arguments other
    than [self], in their order. *)
Lemma describe_args_keys (fname docstring : string)
    (anns : gmap string annotation) (todo : list string)
    (props props' : list (string * param_info)) :
  describe_args fname docstring anns todo props = OK props' ->
  NoDup todo ->
  (forall k, In k todo -> assoc props k = None) ->
  map fst props' = map fst props ++ List.filter not_self todo.
Proof.
  revert props. induction todo as [|a todo IH]; intros props Hrun Hnd Hfresh.
  - cbn in Hrun. injection Hrun as <-. cbn. now rewrite app_nil_r.
  - apply NoDup_cons in Hnd as [Ha Hnd].
    cbn [describe_args] in Hrun. cbn [List.filter]. unfold not_self at 1.
    destruct (String.eqb a "self") eqn:Hself; cbn [negb].
    + apply (IH props Hrun Hnd). intros k Hk. apply Hfresh. now right.
    + destruct (anns !! a) as [ann|] eqn:Hann; [|discriminate].
      destruct (ann_truthy ann) eqn:Htr; cbn [negb] in Hrun; [|discriminate].
      destruct (param_description_total docstring a) as (desc & Hdesc).
      rewrite Hdesc in Hrun. cbn [rbind] in Hrun.
      apply IH in Hrun; [|exact Hnd|].
      * rewrite Hrun, setitem_fresh by (apply Hfresh; now left).
        rewrite map_app. cbn. now rewrite <- app_assoc.
      * intros k Hk. rewrite assoc_setitem_ne.
        -- apply Hfresh. now right.
        -- intros ->. apply Ha. now apply list_elem_of_In.
Qed.

(** C7 as stated fails: the variadic and the keyword-only parameters of
    a documented method are declared without a type, and
    [generate_description] returns a schema, in which they do not appear. *)
Lemma untyped_keyword_only_is_accepted :
  exists repr,
    generate_description MoreServices.scale = OK repr
    /\ varargs (getfullargspec MoreServices.scale) = Some "rest"
    /\ kwonlyargs (getfullargspec MoreServices.scale) = ["factor"]
    /\ varkw (getfullargspec MoreServices.scale) = Some "options"
    /\ annotations (getfullargspec MoreServices.scale) !! "rest" = None
    /\ annotations (getfullargspec MoreServices.scale) !! "factor" = None
    /\ annotations (getfullargspec MoreServices.scale) !! "options" = None
    /\ map fst (properties (r_parameters repr)) = ["a"].
Proof.
  destruct (generate_description MoreServices.scale) as [r|e] eqn:H;
    vm_compute in H; [|discriminate].
  injection H as <-. eexists. repeat split; reflexivity.
Qed.

(** C7 as the code has it.  [generate_description] raises the [ValueError]
    about the docstring when the method has no documentation text; for a
    documented method, it raises the [ValueError] about a type annotation
    when some positional parameter (one of [args]) other than [self] has
    none; and when it returns, every positional parameter other than [self]
    has its annotation, in small letters, as the type in [properties]: no
    type is made up.  The variadic and the keyword-only parameters are not
    looked at. *)
Theorem generation_failures (func : pyfunction) :
  let func_info := getfullargspec func in
  (getdoc func = None \/ getdoc func = Some "" ->
   generate_description func
     = Raise (ValueError (no_docstring_msg (func_name func))))
  /\ (forall docstring,
        getdoc func = Some docstring -> docstring <> "" ->
        (exists arg, In arg (args func_info) /\ arg <> "self"
                     /\ annotations func_info !! arg = None) ->
        exists arg, In arg (args func_info) /\ arg <> "self"
                    /\ annotation_given (annotations func_info !! arg) = false
                    /\ generate_description func
                       = Raise (ValueError
                                  (no_annotation_msg arg (func_name func))))
  /\ (forall repr,
        generate_description func = OK repr ->
        forall arg, In arg (args func_info) -> arg <> "self" ->
        exists ann info,
          annotations func_info !! arg = Some ann
          /\ assoc (properties (r_parameters repr)) arg = Some info
          /\ p_type info = lower (ann_str ann))
  /\ (forall va vk kw kwd,
        generate_description
          {| func_name := func_name func;
             getdoc := getdoc func;
             getfullargspec :=
               {| args := args func_info;
                  varargs := va; varkw := vk;
                  defaults := defaults func_info;
                  kwonlyargs := kw; kwonlydefaults := kwd;
                  annotations := annotations func_info |} |}
        = generate_description func).
Proof.
  intros func_info. subst func_info. unfold generate_description.
  split; [|split; [|split]]; [| | |reflexivity].
  - intros [-> | ->]; reflexivity.
  - intros docstring -> Hne (arg & Hin & Hns & Hnone).
    destruct docstring as [|c docstring]; [congruence|]. cbn [truthy negb].
    destruct (describe_args_untyped (func_name func) (String c docstring)
                (annotations (getfullargspec func))
                (args (getfullargspec func)) [])
      as (b & Hb & Hbs & Hbn & Hrun).
    { exists arg. repeat split; try assumption. now rewrite Hnone. }
    exists b. repeat split; try assumption. now rewrite Hrun.
  - intros repr Hrun arg Hin Hns.
    destruct (getdoc func) as [docstring|]; [|discriminate].
    destruct (truthy docstring); cbn [negb] in Hrun; [|discriminate].
    destruct (describe_args _ _ _ _ _) as [props|e] eqn:Hargs;
      cbn [rbind] in Hrun; [|discriminate].
    injection Hrun as <-. cbn [r_parameters properties].
    apply describe_args_typed in Hargs as [Hgood Hkeys];
      [|intros k info; discriminate].
    destruct (Hkeys arg) as [info Hinfo]; [right; now split|].
    destruct (Hgood arg info Hinfo) as (ann & Hann & _ & Hty & _).
    now exists ann, info.
Qed.

Lemma generation_failures_witness :
  generate_description Examples.f_undocumented
    = Raise (ValueError (no_docstring_msg "f"))
  /\ (exists arg,
        generate_description Examples.g_untyped
          = Raise (ValueError (no_annotation_msg arg "g")))
  /\ (exists info,
        option_map (fun r => assoc (properties (r_parameters r)) "shade")
          (match generate_description MoreServices.paint with
           | OK r => Some r
           | Raise _ => None
           end) = Some (Some info)
        /\ p_type info = "<enum 'color'>").
Proof.
  split; [|split].
  - apply (proj1 (generation_failures Examples.f_undocumented)).
    left. reflexivity.
  - destruct (proj1 (proj2 (generation_failures Examples.g_untyped))
                "Combine a and b." eq_refl)
      as (arg & _ & _ & _ & Hrun).
    + discriminate.
    + exists "b". repeat split; [cbn; tauto | discriminate].
    + now exists arg.
  - destruct (generate_description MoreServices.paint) as [r|e] eqn:Hrun;
      [|vm_compute in Hrun; discriminate].
    destruct (proj1 (proj2 (proj2 (generation_failures MoreServices.paint)))
                r Hrun "shade")
      as (ann & info & Hann & Hinfo & Hty).
    + cbn; tauto.
    + discriminate.
    + exists info. cbn. rewrite Hinfo. split; [reflexivity|].
      rewrite Hty. vm_compute in Hann. injection Hann as <-. reflexivity.
Defined.

(** C8 as stated fails: the keyword-only parameter [b] of
    [label(self, a: int, *, b: str)] has no default, and it is neither in
    [required] nor in [properties]. *)
Lemma required_keyword_only_is_omitted :
  exists repr,
    generate_description MoreServices.label = OK repr
    /\ kwonlyargs (getfullargspec MoreServices.label) = ["b"]
    /\ kwonlydefaults (getfullargspec MoreServices.label) = None
    /\ defaults (getfullargspec MoreServices.label) = None
    /\ required (r_parameters repr) = ["a"]
    /\ map fst (properties (r_parameters repr)) = ["a"].
Proof.
  destruct (generate_description MoreServices.label) as [r|e] eqn:H;
    vm_compute in H; [|discriminate].
  injection H as <-. eexists. repeat split; reflexivity.
Qed.

(** C8 as the code has it.  When the schema of a method is generated (its
    positional parameters having distinct names, as Python requires),
    [required] holds the positional parameters that come before the last
    N, N being the number of their defaults, without [self] and in their
    order; [properties] has all the positional parameters other than
    [self], in their order.  The variadic and the keyword-only parameters
    are in neither. *)
Theorem required_parameters (func : pyfunction) (repr : representation) :
  let func_info := getfullargspec func in
  let n := match defaults func_info with
           | Some ds => length ds
           | None => 0
           end in
  NoDup (args func_info) ->
  generate_description func = OK repr ->
  required (r_parameters repr)
    = List.filter not_self
        (firstn (length (args func_info) - n) (args func_info))
  /\ map fst (properties (r_parameters repr))
     = List.filter not_self (args func_info).
Proof.
  intros func_info n Hnd Hrun. subst func_info n.
  unfold generate_description in Hrun.
  destruct (getdoc func) as [docstring|]; [|discriminate].
  destruct (truthy docstring); cbn [negb] in Hrun; [|discriminate].
  destruct (describe_args _ _ _ _ _) as [props|e] eqn:Hargs;
    cbn [rbind] in Hrun; [|discriminate].
  injection Hrun as <-. cbn [r_parameters properties required]. split.
  - now apply required_args_spec.
  - now apply describe_args_keys in Hargs.
Qed.

Lemma required_parameters_witness :
  exists repr,
    generate_description Examples.f = OK repr
    /\ required (r_parameters repr) = ["a"]
    /\ map fst (properties (r_parameters repr)) = ["a"; "b"].
Proof.
  destruct (generate_description Examples.f) as [r|e] eqn:Hrun;
    [|vm_compute in Hrun; discriminate].
  exists r. split; [reflexivity|].
  apply (required_parameters Examples.f r); [|exact Hrun].
  apply (bool_decide_unpack _). reflexivity.
Defined.

Lemma describe_members_spec (ms : list (string * member))
    (acc descriptions : list representation) :
  describe_members ms acc = OK descriptions
  <-> exists ds, descriptions = acc ++ ds
                 /\ Forall2 (fun f d => generate_description f = OK d)
                      (functions_of ms) ds.
Proof.
  revert acc. induction ms as [|[name [f|]] ms IH]; intros acc;
    cbn [describe_members functions_of].
  - split.
    + intros [= <-]. exists []. now rewrite app_nil_r.
    + intros (ds & -> & H). apply Forall2_nil_inv_l in H. subst.
      now rewrite app_nil_r.
  - destruct (generate_description f) as [d|e] eqn:Hgen; cbn [rbind].
    + rewrite IH. split.
      * intros (ds & -> & H). exists (d :: ds). rewrite <- app_assoc.
        split; [reflexivity | now constructor].
      * intros (ds & -> & H).
        apply Forall2_cons_inv_l in H as (d' & ds' & Hd & H & ->).
        rewrite Hgen in Hd. injection Hd as <-.
        exists ds'. now rewrite <- app_assoc.
    + split; [discriminate|].
      intros (ds & _ & H).
      apply Forall2_cons_inv_l in H as (d' & ds' & Hd & _).
      rewrite Hgen in Hd. discriminate.
  - apply IH.
Qed.

Lemma functions_of_getmembers (cls : pyclass) :
  functions_of (getmembers cls isfunction) = functions_of cls.
Proof.
  unfold getmembers. induction cls as [|[name [f|]] cls IH]; cbn;
    [reflexivity | now rewrite IH | exact IH].
Qed.

(** C9 as the code has it.  [generate_descriptions] returns a list
    exactly when [generate_description] returns for every function among
    the members of the class, and the list then holds what it returned
    for each of them, one for one and in the order of the listing;
    members that are not functions get nothing, and the name of a member
    plays no part. *)
Theorem descriptions_of_functions (cls : pyclass)
    (descriptions : list representation) :
  generate_descriptions cls = OK descriptions
  <-> Forall2 (fun f d => generate_description f = OK d)
        (functions_of cls) descriptions.
Proof.
  unfold generate_descriptions.
  rewrite describe_members_spec, functions_of_getmembers. split.
  - now intros (ds & -> & H).
  - intros H. now exists descriptions.
Qed.

(** C9 as stated fails: a method whose name begins with an underscore is
    described like the others. *)
Lemma private_method_is_described :
  exists d1 d2,
    In ("_secret", Function Examples.secret) Examples.service
    /\ public "_secret" = false
    /\ generate_descriptions Examples.service = OK [d1; d2]
    /\ r_name d1 = "_secret"
    /\ r_name d2 = "greet".
Proof.
  destruct (generate_descriptions Examples.service) as [ds|e] eqn:H;
    vm_compute in H; [|discriminate].
  injection H as <-. do 2 eexists.
  repeat split; [cbn; tauto | reflexivity..].
Qed.

End ServiceFacts.


(** ** More on the output parser *)

Section ParserExtras.
Import PyStr MRKL.

Lemma parse_of_lines (t t' : string) :
  nonempty_lines t = nonempty_lines t' ->
  get_action_and_input t = get_action_and_input t'.
Proof. intros H. unfold get_action_and_input. now rewrite H. Qed.

Lemma nonempty_lines_leading_newline (t : string) :
  nonempty_lines (String nl t) = nonempty_lines t.
Proof. reflexivity. Qed.

Lemma nonempty_lines_trailing_newline (t : string) :
  nonempty_lines (t +:+ str nl) = nonempty_lines t.
Proof.
  unfold str. rewrite nonempty_lines_app. cbn. now rewrite app_nil_r.
Qed.

Lemma index_neg_1_inv {A : Type} (l : list A) (x : A) :
  index_neg l 1 = OK x -> exists pre, l = pre ++ [x].
Proof.
  destruct l as [|y l' _] using rev_ind.
  - discriminate.
  - rewrite index_neg_1. intros [= ->]. now exists l'.
Qed.

Lemma index_neg_2_inv {A : Type} (pre : list A) (x y : A) :
  index_neg (pre ++ [x]) 2 = OK y -> exists pre', pre = pre' ++ [y].
Proof.
  destruct pre as [|z pre' _] using rev_ind.
  - discriminate.
  - rewrite <- app_assoc. cbn [List.app]. rewrite index_neg_2.
    intros [= ->]. now exists pre'.
Qed.

(** X1.  The result of [get_action_and_input] is a function of the last two
    non-empty lines of the text: two texts that agree on them are parsed
    alike, whatever comes before. *)
Theorem parse_reads_last_two_lines (t t' : string) (pre pre' : list string)
    (l2 l1 : string) :
  nonempty_lines t = pre ++ [l2; l1] ->
  nonempty_lines t' = pre' ++ [l2; l1] ->
  get_action_and_input t = get_action_and_input t'.
Proof.
  intros H H'. unfold get_action_and_input.
  now rewrite H, H', !index_neg_1_of_2, !index_neg_2.
Qed.

Lemma parse_reads_last_two_lines_witness :
  get_action_and_input MoreExamples.long_reasoning
  = get_action_and_input MoreExamples.short_reasoning.
Proof.
  apply (parse_reads_last_two_lines _ _
           ["Thought: first I look at the question"; "Thought: then I decide"]
           [] "Action: Search" "Action Input: weather in Paris");
    reflexivity.
Defined.

(** X2.  Empty lines do not count: a newline doubled in the middle of the
    text, put before it or put after it leaves the result of
    [get_action_and_input] as it was. *)
Theorem blank_lines_ignored (a b : string) :
  get_action_and_input (a +:+ String nl (String nl b))
    = get_action_and_input (a +:+ String nl b)
  /\ get_action_and_input (a +:+ str nl) = get_action_and_input a
  /\ get_action_and_input (String nl a) = get_action_and_input a.
Proof.
  split; [|split]; apply parse_of_lines.
  - now rewrite !nonempty_lines_app, nonempty_lines_leading_newline.
  - apply nonempty_lines_trailing_newline.
  - apply nonempty_lines_leading_newline.
Qed.

(** X3.  When [get_action_and_input] returns, the text has the shape it
    asks for: its last non-empty line begins with [Final Answer] and the
    result is the final answer made of what follows the first fourteen
    characters of that line; or its last two non-empty lines begin with
    [Action: ] and [Action Input: ] and the result is made of what follows
    these. *)
Theorem parse_success_shape (t action action_input : string) :
  get_action_and_input t = OK (action, action_input) ->
  exists pre l1,
    nonempty_lines t = pre ++ [l1]
    /\ ((startswith l1 "Final Answer" = true
         /\ action = "Final Answer"
         /\ action_input = slice_from 14 l1)
        \/ (startswith l1 "Final Answer" = false
            /\ startswith l1 "Action Input: " = true
            /\ exists pre' l2,
                 pre = pre' ++ [l2]
                 /\ startswith l2 "Action: " = true
                 /\ action = slice_from 8 l2
                 /\ action_input
                    = strip (str dquote) (strip (str space) (slice_from 14 l1)))).
Proof.
  unfold get_action_and_input.
  destruct (index_neg (nonempty_lines t) 1) as [l1|e] eqn:H1; [|discriminate].
  destruct (index_neg_1_inv _ _ H1) as [pre Hpre]. rewrite Hpre.
  cbn [rbind]. intros H. exists pre, l1. split; [reflexivity|].
  destruct (startswith l1 "Final Answer") eqn:Hfa.
  - left. injection H as <- <-. now repeat split.
  - right. destruct (startswith l1 "Action Input: ") eqn:Hai;
      cbn [negb] in H; [|discriminate].
    destruct (index_neg (pre ++ [l1]) 2) as [l2|e] eqn:H2; [|discriminate].
    destruct (index_neg_2_inv _ _ _ H2) as [pre' ->]. cbn [rbind] in H.
    destruct (startswith l2 "Action: ") eqn:Hact; cbn [negb] in H;
      [|discriminate].
    injection H as <- <-. repeat split. exists pre', l2. now repeat split.
Qed.

Lemma parse_success_shape_witness :
  exists pre l1,
    nonempty_lines MoreExamples.long_reasoning = pre ++ [l1]
    /\ ((startswith l1 "Final Answer" = true
         /\ "Search" = "Final Answer"
         /\ "weather in Paris" = slice_from 14 l1)
        \/ (startswith l1 "Final Answer" = false
            /\ startswith l1 "Action Input: " = true
            /\ exists pre' l2,
                 pre = pre' ++ [l2]
                 /\ startswith l2 "Action: " = true
                 /\ "Search" = slice_from 8 l2
                 /\ "weather in Paris"
                    = strip (str dquote) (strip (str space) (slice_from 14 l1)))).
Proof.
  apply (parse_success_shape MoreExamples.long_reasoning "Search"
           "weather in Paris").
  reflexivity.
Defined.

Lemma split_lines_no_sep (sep : ascii) (s : string) :
  Forall (fun l => mem sep l = false) (split sep s).
Proof.
  induction s as [|c s IH]; cbn [split]; [now repeat constructor|].
  destruct (Ascii.eqb_spec c sep) as [->|Hc]; [now constructor|].
  pose proof (split_not_nil sep s) as Hne.
  destruct (split sep s) as [|w ws]; [now destruct Hne|].
  apply Forall_cons in IH as [Hw Hws]. constructor; [|exact Hws].
  cbn. rewrite Hw, orb_false_r. apply Ascii.eqb_neq. congruence.
Qed.

Lemma mem_slice_from (c : ascii) (n : nat) (s : string) :
  mem c s = false -> mem c (slice_from n s) = false.
Proof.
  revert n. induction s as [|d s IH]; intros [|n] H; try exact H.
  cbn in *. apply orb_false_iff in H as [_ H]. now apply IH.
Qed.

Lemma mem_app_false (c : ascii) (a b : string) :
  mem c (a +:+ b) = false -> mem c a = false /\ mem c b = false.
Proof.
  induction a as [|d a IH]; cbn; [now split|].
  intros H. apply orb_false_iff in H as [Hd H].
  destruct (IH H) as [Ha Hb]. now rewrite Hd, Ha, Hb.
Qed.

Lemma mem_strip (c : ascii) (chars s : string) :
  mem c s = false -> mem c (strip chars s) = false.
Proof.
  intros H. destruct (strip_spec chars s) as ((l & r & Hs & _) & _).
  rewrite Hs in H. apply mem_app_false in H as [_ H].
  now apply mem_app_false in H as [H _].
Qed.

Lemma index_neg_In {A : Type} (l : list A) (k : nat) (x : A) :
  index_neg l k = OK x -> In x l.
Proof.
  unfold index_neg. destruct (Nat.leb k (length l)); [|discriminate].
  destruct (nth_error l (length l - k)) as [y|] eqn:H; [|discriminate].
  intros [= <-]. now apply nth_error_In in H.
Qed.

Lemma line_no_newline (t l : string) :
  In l (nonempty_lines t) -> mem nl l = false.
Proof.
  unfold nonempty_lines. intros H. apply List.filter_In in H as [H _].
  pose proof (split_lines_no_sep nl t) as Hall.
  rewrite List.Forall_forall in Hall. now apply Hall.
Qed.

(** X21.  Neither the action nor the input that [get_action_and_input]
    returns has a newline in it, whatever the text. *)
Theorem directive_on_one_line (t action action_input : string) :
  get_action_and_input t = OK (action, action_input) ->
  mem nl action = false /\ mem nl action_input = false.
Proof.
  unfold get_action_and_input.
  destruct (index_neg (nonempty_lines t) 1) as [l1|e] eqn:H1; [|discriminate].
  apply index_neg_In, line_no_newline in H1. cbn [rbind].
  destruct (startswith l1 "Final Answer").
  - intros H.
    assert (Ha : action = "Final Answer") by congruence.
    assert (Hi : action_input
                 = slice_from (String.length FINAL_ANSWER_ACTION) l1)
      by congruence.
    rewrite Ha, Hi. split; [reflexivity | now apply mem_slice_from].
  - destruct (startswith l1 "Action Input: "); cbn [negb]; [|discriminate].
    destruct (index_neg (nonempty_lines t) 2) as [l2|e] eqn:H2;
      [|discriminate].
    apply index_neg_In, line_no_newline in H2. cbn [rbind].
    destruct (startswith l2 "Action: "); cbn [negb]; [|discriminate].
    intros H.
    assert (Ha : action = slice_from (String.length "Action: ") l2)
      by congruence.
    assert (Hi : action_input
                 = strip (str dquote)
                     (strip (str space)
                        (slice_from (String.length "Action Input: ") l1)))
      by congruence.
    rewrite Ha, Hi. split; [now apply mem_slice_from|].
    now apply mem_strip, mem_strip, mem_slice_from.
Qed.

Lemma directive_on_one_line_witness :
  mem nl "Search" = false /\ mem nl "weather in Paris" = false.
Proof.
  apply (directive_on_one_line MoreExamples.long_reasoning).
  reflexivity.
Defined.

End ParserExtras.


(** ** More on the agent loop *)

Section LoopExtras.
Import PyStr MRKL Reading.

(** One pass of the loop, case by case. *)
Lemma loop_body_cases (self : MRKLAgent) (t q : string) (w : world) :
  loop_body self t q w
  = let w1 := {| calls := S (calls w); trace := trace w ++ [Prompted t] |} in
    match rbind (first (prompt_node self (calls w) t)) get_action_and_input with
    | Raise e => (Raise e, w1)
    | OK (action, action_input) =>
        if String.eqb action "Final Answer"
        then (OK (Returned action_input), w1)
        else
          match tool_map self !! action with
          | None => (Raise (KeyError action), w1)
          | Some next_pipeline =>
              let w2 := {| calls := S (calls w);
                           trace := (trace w ++ [Prompted t])
                                    ++ [Invoked action action_input] |} in
              match next_pipeline action_input !! "output" with
              | Some observation => (OK (Running (q +:+ observation)), w2)
              | None => (Raise (KeyError "output"), w2)
              end
          end
    end.
Proof.
  unfold loop_body, bind, call_prompt_node, lift.
  destruct (first (prompt_node self (calls w) t)) as [llm_output|e];
    cbn [rbind]; [|reflexivity].
  destruct (get_action_and_input llm_output) as [[action action_input]|e];
    [|reflexivity].
  destruct (String.eqb action "Final Answer"); [reflexivity|].
  unfold getitem. destruct (tool_map self !! action) as [p|]; [|reflexivity].
  unfold call_pipeline. cbn [calls trace].
  now destruct (p action_input !! "output").
Qed.

(** The pass that follows a run still going. *)
Lemma run_next_pass (fuel more : nat) (self : MRKLAgent) (query0 q : string)
    (w0 w : world) :
  run fuel self query0 w0 = (OK (Running q), w) ->
  run (fuel + S more) self query0 w0
  = match loop_body self (template query0) q w with
    | (OK (Running q'), w') => while_true more self (template query0) q' w'
    | other => other
    end.
Proof.
  intros Hrun. unfold run in *. rewrite while_true_app, Hrun.
  cbn [while_true]. unfold bind.
  now destruct (loop_body self (template query0) q w) as [[[answer|q']|e] w'].
Qed.

(** X4.  When a pass of the loop gets [Final Answer] as the action -- from
    a last line that begins with [Final Answer], or from a line
    [Action: Final Answer] -- [run] returns the input that comes with it:
    the model has been called once more, and no tool has been invoked, not
    even a tool that the registry holds under the name [Final Answer]. *)
Theorem final_answer_returned (fuel more : nat) (self : MRKLAgent)
    (query0 q : string) (w0 w : world) (llm_output : string)
    (rest : list string) (answer : string) :
  run fuel self query0 w0 = (OK (Running q), w) ->
  prompt_node self (calls w) (template query0) = llm_output :: rest ->
  get_action_and_input llm_output = OK ("Final Answer", answer) ->
  exists w',
    run (fuel + S more) self query0 w0 = (OK (Returned answer), w')
    /\ invocations (trace w') = invocations (trace w)
    /\ prompts (trace w') = prompts (trace w) ++ [template query0].
Proof.
  intros Hrun Hpred Hparse.
  rewrite (run_next_pass _ _ _ _ _ _ _ Hrun), loop_body_cases, Hpred.
  cbn [first rbind]. rewrite Hparse. cbn.
  eexists. split; [reflexivity|].
  unfold invocations, prompts. cbn [trace]. rewrite !omap_app. cbn.
  split; [now rewrite app_nil_r | reflexivity].
Qed.

Lemma final_answer_returned_witness :
  exists w',
    run (0 + 1) shadowed_agent "What is 6 times 7?" start
      = (OK (Returned "42"), w')
    /\ invocations (trace w') = invocations (trace start)
    /\ prompts (trace w')
       = prompts (trace start) ++ [template "What is 6 times 7?"].
Proof.
  apply (final_answer_returned 0 0 shadowed_agent "What is 6 times 7?"
           "What is 6 times 7?" start start final_as_action [] "42");
    reflexivity.
Defined.

(** X5.  When the model answers nothing, or a text that
    [get_action_and_input] rejects, the error is the result of [run]: no
    tool is invoked and the model is not asked again. *)
Theorem parse_failure_propagates (fuel more : nat) (self : MRKLAgent)
    (query0 q : string) (w0 w : world) (e : exn) :
  run fuel self query0 w0 = (OK (Running q), w) ->
  rbind (first (prompt_node self (calls w) (template query0)))
    get_action_and_input = Raise e ->
  exists w',
    run (fuel + S more) self query0 w0 = (Raise e, w')
    /\ invocations (trace w') = invocations (trace w)
    /\ prompts (trace w') = prompts (trace w) ++ [template query0].
Proof.
  intros Hrun Hparse.
  rewrite (run_next_pass _ _ _ _ _ _ _ Hrun), loop_body_cases, Hparse.
  cbn zeta. eexists. split; [reflexivity|].
  unfold invocations, prompts. cbn [trace]. rewrite !omap_app. cbn.
  split; [now rewrite app_nil_r | reflexivity].
Qed.

Lemma parse_failure_propagates_witness :
  exists w',
    run (0 + 5) silent_agent "Anyone there?" start = (Raise IndexError, w')
    /\ invocations (trace w') = invocations (trace start)
    /\ prompts (trace w') = prompts (trace start) ++ [template "Anyone there?"].
Proof.
  apply (parse_failure_propagates 0 4 silent_agent "Anyone there?"
           "Anyone there?" start start IndexError);
    reflexivity.
Defined.

(** X6.  When the result of the tool has no [output], [run] raises
    [KeyError] for that key, after the tool has been invoked. *)
Theorem missing_output_key (fuel more : nat) (self : MRKLAgent)
    (query0 q : string) (w0 w : world) (llm_output : string)
    (rest : list string) (action action_input : string)
    (next_pipeline : string -> gmap string string) :
  run fuel self query0 w0 = (OK (Running q), w) ->
  prompt_node self (calls w) (template query0) = llm_output :: rest ->
  get_action_and_input llm_output = OK (action, action_input) ->
  action <> "Final Answer" ->
  tool_map self !! action = Some next_pipeline ->
  next_pipeline action_input !! "output" = None ->
  exists w',
    run (fuel + S more) self query0 w0 = (Raise (KeyError "output"), w')
    /\ invocations (trace w')
       = invocations (trace w) ++ [(action, action_input)].
Proof.
  intros Hrun Hpred Hparse Hact Htool Hout.
  rewrite (run_next_pass _ _ _ _ _ _ _ Hrun), loop_body_cases, Hpred.
  cbn [first rbind]. rewrite Hparse. cbn zeta.
  apply String.eqb_neq in Hact. rewrite Hact, Htool, Hout.
  eexists. split; [reflexivity|].
  unfold invocations. cbn [trace]. rewrite !omap_app. cbn.
  now rewrite app_nil_r.
Qed.

Lemma missing_output_key_witness :
  exists w',
    run (0 + 2) mute_agent "What is 2+2?" start
      = (Raise (KeyError "output"), w')
    /\ invocations (trace w')
       = invocations (trace start) ++ [("Calculator", "2+2")].
Proof.
  apply (missing_output_key 0 1 mute_agent "What is 2+2?" "What is 2+2?"
           start start Examples.calculator_call [] "Calculator" "2+2" mute);
    try reflexivity.
  discriminate.
Defined.

Lemma invocations_rounds (t : string) (invs : list (string * string)) :
  invocations (rounds t invs) = invs.
Proof.
  induction invs as [|[a i] invs IH]; [reflexivity|].
  cbn. f_equal. exact IH.
Qed.

Lemma prompts_rounds (t : string) (invs : list (string * string)) :
  prompts (rounds t invs) = repeat t (length invs).
Proof.
  induction invs as [|[a i] invs IH]; [reflexivity|].
  cbn. f_equal. exact IH.
Qed.

Ltac trace_done :=
  repeat split;
  first [ reflexivity | left; reflexivity | constructor; fail | lia ].

(** What the loop adds to the trace: complete passes, each a prompt and the
    invocation of a registered tool, and at most one more prompt. *)
Lemma while_true_trace (fuel : nat) (self : MRKLAgent) (t : string) :
  forall (q : string) (w : world) (res : result outcome) (w' : world),
    while_true fuel self t q w = (res, w') ->
    exists invs last,
      trace w' = trace w ++ rounds t invs ++ last
      /\ Forall (registered self) invs
      /\ calls w' = calls w + length invs + length last
      /\ length invs <= fuel
      /\ match res with
         | OK (Running _) => last = [] /\ length invs = fuel
         | OK (Returned _) => last = [Prompted t]
         | Raise _ => last = [Prompted t] \/ (last = [] /\ invs <> [])
         end.
Proof.
  induction fuel as [|fuel IH]; intros q w res w' Hrun.
  - cbn in Hrun. injection Hrun as <- <-. exists [], [].
    cbn. rewrite app_nil_r. trace_done.
  - cbn [while_true] in Hrun. unfold bind in Hrun.
    rewrite loop_body_cases in Hrun. cbn zeta in Hrun.
    destruct (rbind _ _) as [[action action_input]|e].
    2:{ injection Hrun as <- <-. exists [], [Prompted t]. cbn. trace_done. }
    destruct (String.eqb action "Final Answer") eqn:Hfa.
    { cbn in Hrun. injection Hrun as <- <-. exists [], [Prompted t]. cbn.
      trace_done. }
    apply String.eqb_neq in Hfa.
    destruct (tool_map self !! action) as [p|] eqn:Htool.
    2:{ injection Hrun as <- <-. exists [], [Prompted t]. cbn. trace_done. }
    assert (Hreg : registered self (action, action_input)).
    { split; [exact Hfa | cbn; rewrite Htool; eauto]. }
    destruct (p action_input !! "output") as [obs|] eqn:Hout.
    + apply IH in Hrun as (invs & last & Htr & Hall & Hcalls & Hlen & Hres).
      exists ((action, action_input) :: invs), last. cbn [trace calls] in *.
      split; [|split; [|split; [|split]]].
      * rewrite Htr. cbn. now rewrite <- !app_assoc.
      * now constructor.
      * cbn [length]. lia.
      * cbn [length]. lia.
      * destruct res as [[answer|q']|e]; try exact Hres.
        -- destruct Hres as (-> & <-). now split.
        -- destruct Hres as [->|[-> Hne]]; [now left|right].
           split; [reflexivity | discriminate].
    + injection Hrun as <- <-. exists [(action, action_input)], []. cbn.
      split; [|split; [|split; [|split]]].
      * now rewrite <- app_assoc.
      * now repeat constructor.
      * lia.
      * lia.
      * right. split; [reflexivity | discriminate].
Qed.

(** X7.  [run] only ever invokes tools that its registry holds, and never a
    tool registered under the name [Final Answer]. *)
Theorem invoked_tools_registered (fuel : nat) (self : MRKLAgent)
    (query : string) :
  Forall (fun ai => fst ai <> "Final Answer"
                    /\ is_Some (tool_map self !! fst ai))
    (invocations (trace (snd (run fuel self query start)))).
Proof.
  destruct (run fuel self query start) as [res w'] eqn:Hrun.
  apply while_true_trace in Hrun as (invs & last & Htr & Hall & _ & _ & Hres).
  cbn [snd]. rewrite Htr. cbn [trace start app]. unfold invocations.
  rewrite omap_app. fold (invocations (rounds (template query) invs)).
  rewrite invocations_rounds.
  assert (Hlast : omap (fun e => match e with
                                 | Invoked a i => Some (a, i)
                                 | _ => None
                                 end) last = []).
  { destruct res as [[answer|q']|e].
    - now rewrite Hres.
    - now destruct Hres as (-> & _).
    - now destruct Hres as [->|[-> _]]. }
  rewrite Hlast, app_nil_r. exact Hall.
Qed.

(** X8.  In a run the calls of the model and of the tools alternate: the
    trace is a sequence of passes, each a prompt followed by one tool
    invocation, with one more prompt at the end when [run] has returned, and
    with as many passes as were allowed when the loop is still going.  The
    number of calls of the model is the number of prompts. *)
Theorem calls_alternate (fuel : nat) (self : MRKLAgent) (query : string) :
  exists invs last,
    trace (snd (run fuel self query start))
      = rounds (template query) invs ++ last
    /\ calls (snd (run fuel self query start))
       = length (prompts (trace (snd (run fuel self query start))))
    /\ length invs <= fuel
    /\ match fst (run fuel self query start) with
       | OK (Running _) => last = [] /\ length invs = fuel
       | OK (Returned _) => last = [Prompted (template query)]
       | Raise _ => last = [Prompted (template query)] \/ last = []
       end.
Proof.
  destruct (run fuel self query start) as [res w'] eqn:Hrun.
  apply while_true_trace in Hrun
    as (invs & last & Htr & _ & Hcalls & Hlen & Hres).
  exists invs, last. cbn [snd fst]. cbn [trace start app] in Htr.
  cbn [calls start] in Hcalls.
  assert (Hp : length (prompts last) = length last).
  { destruct res as [[answer|q']|e].
    - now rewrite Hres.
    - now destruct Hres as (-> & _).
    - now destruct Hres as [->|[-> _]]. }
  repeat split; try assumption.
  - rewrite Hcalls, Htr. unfold prompts at 1. rewrite omap_app.
    fold (prompts (rounds (template query) invs)). fold (prompts last).
    rewrite prompts_rounds, length_app, repeat_length, Hp. lia.
  - destruct res as [[answer|q']|e]; try exact Hres.
    destruct Hres as [->|[-> _]]; [now left | now right].
Qed.

End LoopExtras.


(** ** More on the schema generator *)

Section ServiceExtras.
Import PyStr Service.

Lemma generate_description_inv (func : pyfunction) (repr : representation) :
  generate_description func = OK repr ->
  exists docstring props,
    getdoc func = Some docstring /\ truthy docstring = true
    /\ describe_args (func_name func) docstring
         (annotations (getfullargspec func)) (args (getfullargspec func)) []
       = OK props
    /\ repr = {| r_name := func_name func;
                r_description := extract_description docstring;
                r_parameters :=
                  {| s_type := "object";
                     properties := props;
                     required := required_args (getfullargspec func) |} |}.
Proof.
  unfold generate_description.
  destruct (getdoc func) as [docstring|]; [|discriminate].
  destruct (truthy docstring) eqn:Hdoc; cbn [negb]; [|discriminate].
  destruct (describe_args _ _ _ _ _) as [props|e] eqn:Hargs;
    cbn [rbind]; [|discriminate].
  intros [= <-]. now exists docstring, props.
Qed.

Lemma truthy_nonempty (s : string) : truthy s = true <-> s <> "".
Proof. destruct s; cbn; split; congruence. Qed.

(** The loop over the arguments goes through when every argument other
    than [self] has an annotation. *)
Lemma describe_args_annotated (fname docstring : string)
    (anns : gmap string annotation) (todo : list string)
    (props : list (string * param_info)) :
  (forall arg, In arg todo -> arg <> "self" ->
               annotation_given (anns !! arg) = true) ->
  exists props', describe_args fname docstring anns todo props = OK props'.
Proof.
  revert props. induction todo as [|a todo IH]; intros props Hall.
  - cbn. eauto.
  - cbn [describe_args].
    assert (Hrest : forall arg, In arg todo -> arg <> "self" ->
                                annotation_given (anns !! arg) = true).
    { intros arg Hin. apply Hall. now right. }
    destruct (String.eqb a "self") eqn:Hself; [now apply IH|].
    apply String.eqb_neq in Hself.
    specialize (Hall a (or_introl eq_refl) Hself).
    destruct (anns !! a) as [ann|]; [|discriminate]. cbn in Hall.
    rewrite Hall. cbn [negb].
    destruct (param_description_total docstring a) as (desc & ->).
    cbn [rbind]. now apply IH.
Qed.

(** X11.  [generate_description] returns a descriptor exactly when the
    method has a non-empty docstring and every argument other than [self]
    has an annotation that is not falsy; otherwise it raises. *)
Theorem generation_succeeds_iff (func : pyfunction) :
  (exists repr, generate_description func = OK repr)
  <-> ((exists docstring, getdoc func = Some docstring /\ docstring <> "")
       /\ forall arg, In arg (args (getfullargspec func)) -> arg <> "self" ->
            annotation_given (annotations (getfullargspec func) !! arg) = true).
Proof.
  split.
  - intros (repr & Hrun).
    destruct (generate_description_inv _ _ Hrun)
      as (docstring & props & Hdoc & Htr & Hargs & _).
    split; [exists docstring; split; [exact Hdoc | now apply truthy_nonempty]|].
    intros arg Hin Hns.
    apply describe_args_typed in Hargs as [Hgood Hkeys];
      [|intros k info; discriminate].
    destruct (Hkeys arg) as [info Hinfo]; [right; now split|].
    destruct (Hgood arg info Hinfo) as (ann & -> & Hann & _). exact Hann.
  - intros ((docstring & Hdoc & Hne) & Hall).
    unfold generate_description. rewrite Hdoc.
    apply truthy_nonempty in Hne. rewrite Hne. cbn [negb].
    destruct (describe_args_annotated (func_name func) docstring
                (annotations (getfullargspec func))
                (args (getfullargspec func)) [] Hall) as (props & ->).
    cbn [rbind]. eauto.
Qed.

Lemma generation_succeeds_iff_witness :
  (exists repr, generate_description Examples.greet = OK repr)
  /\ ~ (exists repr, generate_description Examples.g_untyped = OK repr).
Proof.
  split.
  - apply (proj2 (generation_succeeds_iff Examples.greet)). split.
    + exists "Say hello.". split; [reflexivity | discriminate].
    + intros arg [<-|[<-|[]]] Hns; [congruence | reflexivity].
  - intros H. apply (proj1 (generation_succeeds_iff Examples.g_untyped)) in H.
    destruct H as [_ H]. specialize (H "b"). cbn in H.
    assert (Hb : annotation_given (annotations (getfullargspec Examples.g_untyped) !! "b") = true).
    { apply H; [tauto | discriminate]. }
    vm_compute in Hb. discriminate.
Defined.

Lemma assoc_None_keys {V : Type} (d : list (string * V)) (k : string) :
  assoc d k = None <-> ~ In k (map fst d).
Proof.
  induction d as [|[k' v] d IH]; cbn; [tauto|].
  destruct (String.eqb_spec k' k) as [->|Hne].
  - split; [discriminate | intros H; destruct H; now left].
  - rewrite IH. tauto.
Qed.

Lemma setitem_keys_present {V : Type} (d : list (string * V)) (k : string)
    (v : V) :
  In k (map fst d) -> map fst (setitem d k v) = map fst d.
Proof.
  induction d as [|[k' v'] d IH]; cbn; [tauto|].
  destruct (String.eqb_spec k' k) as [->|Hne]; [reflexivity|].
  intros [H|H]; [contradiction|]. cbn. now rewrite IH.
Qed.

Lemma setitem_keys {V : Type} (d : list (string * V)) (k : string) (v : V) :
  NoDup (map fst d) ->
  NoDup (map fst (setitem d k v))
  /\ forall x, In x (map fst (setitem d k v)) <-> In x (map fst d) \/ x = k.
Proof.
  intros Hnd. destruct (assoc d k) as [v0|] eqn:Hk.
  - assert (Hin : In k (map fst d)).
    { destruct (in_dec String.string_dec k (map fst d)) as [H|H]; [exact H|].
      apply assoc_None_keys in H. congruence. }
    rewrite (setitem_keys_present _ _ _ Hin). split; [exact Hnd|].
    intros x. split; [tauto | intros [H| ->]; assumption].
  - rewrite (setitem_fresh _ _ _ Hk), map_app. cbn. split.
    + apply NoDup_app. split; [exact Hnd|]. split; [|apply NoDup_singleton].
      intros x Hx [->|[]]%list_elem_of_In. apply list_elem_of_In in Hx.
      now apply assoc_None_keys in Hk.
    + intros x. rewrite in_app_iff. cbn. intuition congruence.
Qed.

(** The keys of [properties] after the loop: those there before and the
    arguments gone through, each once. *)
Lemma describe_args_keys_set (fname docstring : string)
    (anns : gmap string annotation) (todo : list string)
    (props props' : list (string * param_info)) :
  describe_args fname docstring anns todo props = OK props' ->
  NoDup (map fst props) ->
  NoDup (map fst props')
  /\ forall k, In k (map fst props')
               <-> In k (map fst props) \/ (In k todo /\ k <> "self").
Proof.
  revert props. induction todo as [|a todo IH]; intros props Hrun Hnd.
  - cbn in Hrun. injection Hrun as <-. split; [exact Hnd|]. cbn. tauto.
  - cbn [describe_args] in Hrun.
    destruct (String.eqb_spec a "self") as [->|Hself].
    + destruct (IH props Hrun Hnd) as [H1 H2]. split; [exact H1|].
      intros k. rewrite H2. cbn. intuition congruence.
    + destruct (anns !! a) as [ann|]; [|discriminate].
      destruct (ann_truthy ann); cbn [negb] in Hrun; [|discriminate].
      destruct (param_description_total docstring a) as (desc & Hdesc).
      rewrite Hdesc in Hrun. cbn [rbind] in Hrun.
      match type of Hrun with
      | describe_args _ _ _ _ (setitem _ _ ?info) = _ =>
          destruct (setitem_keys props a info Hnd) as [Hnd' Hkeys]
      end.
      destruct (IH _ Hrun Hnd') as [H1 H2]. split; [exact H1|].
      intros k. rewrite H2, Hkeys. cbn. intuition congruence.
Qed.

(** [lower] on capitals with and without accent, and on the two characters
    between the accented capitals that are not letters with a small form. *)
Example lower_of_capitals :
  lower "<enum 'Color'>" = "<enum 'color'>"
  /\ lower MoreServices.ECOLE = MoreServices.ecole
  /\ lower (String "215" "") = String "215" ""
  /\ lower (String "223" "") = String "223" "".
Proof. repeat split. Qed.

(** X12.  A descriptor that [generate_description] returns is well formed:
    it carries the name of the function and the type [object]; the keys of
    [properties] are distinct and are the arguments other than [self];
    every name in [required] is one of these keys; and the type and the
    enumeration of every property are those of the annotation of its
    argument. *)
Theorem descriptor_well_formed (func : pyfunction) (repr : representation) :
  generate_description func = OK repr ->
  let keys := map fst (properties (r_parameters repr)) in
  r_name repr = func_name func
  /\ s_type (r_parameters repr) = "object"
  /\ NoDup keys
  /\ (forall k, In k keys
                <-> In k (args (getfullargspec func)) /\ k <> "self")
  /\ (forall k, In k (required (r_parameters repr)) -> In k keys)
  /\ (forall k info,
        assoc (properties (r_parameters repr)) k = Some info ->
        exists ann,
          annotations (getfullargspec func) !! k = Some ann
          /\ p_type info = lower (ann_str ann)
          /\ p_enum info = ann_members ann).
Proof.
  intros Hrun keys. subst keys.
  destruct (generate_description_inv _ _ Hrun)
    as (docstring & props & _ & _ & Hargs & ->).
  cbn [r_name r_parameters s_type properties required].
  destruct (describe_args_keys_set _ _ _ _ _ _ Hargs (NoDup_nil_2 (A:=string)))
    as [Hnd Hkeys].
  split; [reflexivity|]. split; [reflexivity|]. split; [exact Hnd|].
  split; [|split].
  - intros k. rewrite Hkeys. cbn. tauto.
  - intros k Hk. unfold required_args in Hk.
    apply List.filter_In in Hk as [Hin Hk].
    apply andb_true_iff in Hk as [_ Hns].
    apply Hkeys. right. split; [exact Hin|].
    intros ->. discriminate.
  - intros k info Hinfo.
    apply describe_args_typed in Hargs as [Hgood _];
      [|intros k' info'; discriminate].
    destruct (Hgood k info Hinfo) as (ann & Hann & _ & Hty & Hen).
    now exists ann.
Qed.

Lemma descriptor_well_formed_witness :
  exists repr info,
    generate_description MoreServices.paint = OK repr
    /\ r_name repr = "paint"
    /\ NoDup (map fst (properties (r_parameters repr)))
    /\ (forall k, In k (required (r_parameters repr)) ->
                  In k (map fst (properties (r_parameters repr))))
    /\ assoc (properties (r_parameters repr)) "shade" = Some info
    /\ p_type info = "<enum 'color'>"
    /\ p_enum info = Some ["RED"; "GREEN"].
Proof.
  destruct (generate_description MoreServices.paint) as [r|e] eqn:Hrun;
    [|vm_compute in Hrun; discriminate].
  destruct (descriptor_well_formed MoreServices.paint r Hrun)
    as (Hname & _ & Hnd & _ & Hreq & Hty).
  destruct (assoc (properties (r_parameters r)) "shade") as [info|] eqn:Hinfo;
    [|vm_compute in Hrun; injection Hrun as <-; discriminate].
  destruct (Hty "shade" info Hinfo) as (ann & Hann & Htype & Henum).
  vm_compute in Hann. injection Hann as <-.
  exists r, info. repeat split; assumption.
Defined.

Lemma describe_members_raise (ms : list (string * member))
    (before after : list pyfunction) (f : pyfunction) (e : exn)
    (acc : list representation) :
  functions_of ms = before ++ f :: after ->
  Forall (fun g => exists d, generate_description g = OK d) before ->
  generate_description f = Raise e ->
  describe_members ms acc = Raise e.
Proof.
  revert before acc. induction ms as [|[name [g|]] ms IH];
    intros before acc Hfs Hbefore Hf; cbn [functions_of describe_members] in *.
  - destruct before; discriminate.
  - destruct before as [|g' before].
    + injection Hfs as -> _. now rewrite Hf.
    + injection Hfs as -> Hfs. apply Forall_cons in Hbefore as [[d Hd] Hbefore].
      rewrite Hd. cbn [rbind]. now apply (IH before).
  - now apply (IH before).
Qed.

(** X13.  [generate_descriptions] is all or nothing: the error of the first
    function member, in the order of the listing, whose description cannot
    be generated is the error of the whole, whatever follows it. *)
Theorem first_failure_aborts (cls : pyclass) (before after : list pyfunction)
    (f : pyfunction) (e : exn) :
  functions_of cls = before ++ f :: after ->
  Forall (fun g => exists d, generate_description g = OK d) before ->
  generate_description f = Raise e ->
  generate_descriptions cls = Raise e.
Proof.
  intros Hfs Hbefore Hf. unfold generate_descriptions.
  apply (describe_members_raise _ before after f); try assumption.
  now rewrite functions_of_getmembers.
Qed.

Lemma first_failure_aborts_witness :
  generate_descriptions MoreServices.broken_service
  = Raise (ValueError (no_docstring_msg "f")).
Proof.
  apply (first_failure_aborts MoreServices.broken_service [Examples.f]
           [Examples.greet] Examples.f_undocumented).
  - reflexivity.
  - constructor; [|constructor]. eexists. vm_compute. reflexivity.
  - reflexivity.
Defined.

Lemma getmembers_idempotent (ms : list (string * member)) :
  getmembers (getmembers ms isfunction) isfunction = getmembers ms isfunction.
Proof.
  unfold getmembers. induction ms as [|[name [f|]] ms IH]; cbn;
    [reflexivity | now rewrite IH | exact IH].
Qed.

(** Each descriptor comes from the function of its entry in the listing. *)
Lemma describe_members_entries (ms : list (string * member))
    (acc descriptions : list representation) :
  describe_members ms acc = OK descriptions ->
  exists ds,
    descriptions = acc ++ ds
    /\ Forall2 (fun nm d => exists f, snd nm = Function f
                                      /\ generate_description f = OK d)
         (getmembers ms isfunction) ds.
Proof.
  revert acc. induction ms as [|[name [f|]] ms IH]; intros acc;
    cbn [describe_members].
  - intros [= <-]. exists []. rewrite app_nil_r. split; [reflexivity|].
    constructor.
  - destruct (generate_description f) as [d|e] eqn:Hgen; cbn [rbind];
      [|discriminate].
    intros H. apply IH in H as (ds & -> & H). exists (d :: ds).
    rewrite <- app_assoc. split; [reflexivity|].
    unfold getmembers in *. cbn. constructor; [|exact H]. now exists f.
  - intros H. apply IH in H as (ds & -> & H). now exists ds.
Qed.

(** X14.  The descriptors that [generate_descriptions] returns are named
    after the functions themselves, one for each function member and in the
    order of the listing: the descriptor of an entry of the listing has the
    [__name__] of the function of that entry, whatever the name under which
    the class holds the function. *)
Theorem descriptors_named_after_functions (cls : pyclass)
    (descriptions : list representation) :
  generate_descriptions cls = OK descriptions ->
  map r_name descriptions = map func_name (functions_of cls)
  /\ length descriptions = length (functions_of cls)
  /\ Forall2 (fun nm d => exists f, snd nm = Function f
                                    /\ r_name d = func_name f)
       (getmembers cls isfunction) descriptions.
Proof.
  intros Hrun. split; [|split].
  - revert Hrun. unfold generate_descriptions. rewrite describe_members_spec.
    intros (ds & -> & H). rewrite functions_of_getmembers in H. cbn [app].
    induction H as [|f d fs ds Hd H IH]; [reflexivity|].
    cbn. rewrite IH. f_equal.
    destruct (generate_description_inv _ _ Hd) as (? & ? & _ & _ & _ & ->).
    reflexivity.
  - revert Hrun. unfold generate_descriptions. rewrite describe_members_spec.
    intros (ds & -> & H). rewrite functions_of_getmembers in H. cbn [app].
    symmetry. exact (Forall2_length _ _ _ H).
  - unfold generate_descriptions in Hrun.
    apply describe_members_entries in Hrun as (ds & -> & H).
    rewrite getmembers_idempotent in H. cbn [app].
    eapply Forall2_impl; [exact H|]. intros nm d (f & Hf & Hd).
    exists f. split; [exact Hf|].
    destruct (generate_description_inv _ _ Hd) as (? & ? & _ & _ & _ & ->).
    reflexivity.
Qed.

Lemma descriptors_named_after_functions_witness :
  exists descriptions,
    map fst (getmembers MoreServices.aliased_service isfunction)
      = ["alias"; "greet"]
    /\ generate_descriptions MoreServices.aliased_service = OK descriptions
    /\ map r_name descriptions = ["greet"; "greet"]
    /\ length descriptions = 2.
Proof.
  destruct (generate_descriptions MoreServices.aliased_service)
    as [ds|e] eqn:Hrun; [|vm_compute in Hrun; discriminate].
  exists ds. split; [reflexivity|]. split; [reflexivity|].
  destruct (descriptors_named_after_functions MoreServices.aliased_service ds
              Hrun) as (Hnames & Hlen & _).
  split; [exact Hnames | exact Hlen].
Defined.

Lemma join_cons (sep x : string) (l : list string) :
  l <> [] -> join sep (x :: l) = x +:+ sep +:+ join sep l.
Proof. destruct l; [congruence | reflexivity]. Qed.

Lemma join_head (sep : string) (c : ascii) (w : string) (ws : list string) :
  join sep (String c w :: ws) = String c (join sep (w :: ws)).
Proof. destruct ws; reflexivity. Qed.

(** Joining what [split] gave, with the separator, gives the text back. *)
Lemma join_split (sep : ascii) (s : string) :
  join (str sep) (split sep s) = s.
Proof.
  induction s as [|c s IH]; [reflexivity|]. cbn [split].
  pose proof (split_not_nil sep s) as Hne.
  destruct (Ascii.eqb_spec c sep) as [->|Hc].
  - rewrite (join_cons _ _ _ Hne), IH. reflexivity.
  - destruct (split sep s) as [|w ws]; [now destruct Hne|].
    now rewrite join_head, IH.
Qed.

Lemma lstrip_fixed (chars s : string) :
  (forall c t, s = String c t -> mem c chars = false) ->
  lstrip chars s = s.
Proof.
  destruct s as [|c s]; [reflexivity|]. intros H. cbn.
  now rewrite (H c s eq_refl).
Qed.

Lemma rstrip_cons (chars : string) (c : ascii) (s : string) :
  rstrip chars (String c s)
  = match rstrip chars s with
    | EmptyString => if mem c chars then EmptyString else str c
    | String _ _ as r => String c r
    end.
Proof. reflexivity. Qed.

Lemma rstrip_idempotent (chars s : string) :
  rstrip chars (rstrip chars s) = rstrip chars s.
Proof.
  induction s as [|c s IH]; [reflexivity|]. rewrite rstrip_cons.
  destruct (rstrip chars s) as [|d r] eqn:Hr.
  - destruct (mem c chars) eqn:Hc; [reflexivity|].
    unfold str. rewrite rstrip_cons. cbn [rstrip]. now rewrite Hc.
  - rewrite rstrip_cons, IH. reflexivity.
Qed.

Lemma strip_idempotent (chars s : string) :
  strip chars (strip chars s) = strip chars s.
Proof.
  unfold strip. rewrite (lstrip_fixed chars (rstrip chars (lstrip chars s))).
  - apply rstrip_idempotent.
  - intros c t H. destruct (rstrip_head _ _ _ _ H) as [t' Ht'].
    now apply (lstrip_head chars s c t').
Qed.

Lemma description_lines_all (lines : list string) :
  Forall (fun line => startswith (strip_ws line) ":" = false) lines ->
  description_lines lines = lines.
Proof.
  induction 1 as [|line lines Hline _ IH]; [reflexivity|].
  cbn. now rewrite Hline, IH.
Qed.

(** X15.  For a docstring none of whose lines begins, once trimmed, with a
    colon, [extract_description] gives the whole docstring without its
    leading and trailing white space: nothing is lost in taking the lines
    apart and putting them together again. *)
Theorem description_of_plain_docstring (docstring : string) :
  Forall (fun line => startswith (strip_ws line) ":" = false)
    (split nl (strip_ws docstring)) ->
  extract_description docstring = strip_ws docstring.
Proof.
  intros H. unfold extract_description.
  rewrite (description_lines_all _ H), join_split.
  apply strip_idempotent.
Qed.

Lemma description_of_plain_docstring_witness :
  extract_description MoreServices.plain_docstring
  = "Combine a and b." +:+ str nl +:+ "  Return the sum.".
Proof.
  rewrite (description_of_plain_docstring MoreServices.plain_docstring).
  - reflexivity.
  - vm_compute. repeat constructor.
Defined.

(** X16.  For a docstring whose first character, white space apart, is a
    colon -- an annotation block with nothing before it --
    [extract_description] gives the empty description. *)
Theorem description_of_bare_annotations (docstring rest : string) :
  strip_ws docstring = String ":" rest ->
  extract_description docstring = "".
Proof.
  intros H. unfold extract_description. rewrite H. cbn [split].
  change (Ascii.eqb ":" nl) with false. cbv iota.
  pose proof (split_not_nil nl rest) as Hne.
  destruct (split nl rest) as [|w ws]; [now destruct Hne|].
  cbn [description_lines].
  assert (Hline : startswith (strip_ws (String ":" w)) ":" = true).
  { unfold strip_ws, strip. cbn [lstrip]. change (mem ":" whitespace) with false.
    cbv iota. cbn [rstrip].
    destruct (rstrip whitespace w); [|reflexivity].
    change (mem ":" whitespace) with false. reflexivity. }
  now rewrite Hline.
Qed.

Lemma description_of_bare_annotations_witness :
  extract_description MoreServices.bare_docstring = "".
Proof.
  apply (description_of_bare_annotations MoreServices.bare_docstring
           ("param a: the number" +:+ str nl +:+ "  :return: the sum")).
  reflexivity.
Defined.

(** *** Where a text occurs in another *)















End ServiceExtras.


(** ** Loading an agent *)

Section LoadingFacts.
Import PyStr MRKL Loading.

Variable read : string -> loaded Config.
Variable load : Config -> option string -> bool -> bool -> loaded LoadedPipeline.

(** The names that [names_but] keeps are the names of the definitions,
    the one put aside excepted. *)
Lemma names_but_spec (defs : list (gmap string string))
    (pipeline_name : option string) (names : list string) :
  names_but defs pipeline_name = OK names ->
  forall n, In n names
            <-> Some n <> pipeline_name
                /\ exists p, In p defs /\ p !! "name" = Some n.
Proof.
  revert names. induction defs as [|p defs IH]; intros names H n.
  - cbn in H. injection H as <-. cbn. split; [tauto|].
    intros (_ & q & [] & _).
  - cbn [names_but] in H. unfold getitem in H.
    destruct (p !! "name") as [m|] eqn:Hm; [|discriminate]. cbn [rbind] in H.
    destruct (names_but defs pipeline_name) as [names'|e]; [|discriminate].
    cbn [rbind] in H. specialize (IH names' eq_refl n).
    destruct (decide (Some m = pipeline_name)) as [Heq|Hne];
      injection H as <-.
    + rewrite IH. split.
      * intros (Hn & q & Hq & Hqn). split; [exact Hn|]. exists q. split;
          [now right | exact Hqn].
      * intros (Hn & q & [<-|Hq] & Hqn).
        -- rewrite Hm in Hqn. injection Hqn as ->. congruence.
        -- split; [exact Hn|]. now exists q.
    + cbn [In]. rewrite IH. split.
      * intros [<-|(Hn & q & Hq & Hqn)].
        -- split; [exact Hne|]. exists p. split; [now left | exact Hm].
        -- split; [exact Hn|]. exists q. split; [now right | exact Hqn].
      * intros (Hn & q & [<-|Hq] & Hqn).
        -- left. rewrite Hm in Hqn. now injection Hqn.
        -- right. split; [exact Hn|]. now exists q.
Qed.

(** [load_all] loads the pipelines one by one, in the order of the names. *)
Lemma load_all_spec (config : Config) (names : list string) (o s : bool)
    (ps : list LoadedPipeline) :
  load_all load config names o s = Loaded ps
  <-> Forall2 (fun n p => load config (Some n) o s = Loaded p) names ps.
Proof.
  revert ps. induction names as [|n names IH]; intros ps; cbn [load_all].
  - split.
    + intros [= <-]. constructor.
    + intros H. apply Forall2_nil_inv_l in H. now subst.
  - destruct (load config (Some n) o s) as [p| |] eqn:Hp; cbn [lbind].
    + destruct (load_all load config names o s) as [ps'| |] eqn:Hps;
        cbn [lbind].
      * split.
        -- intros [= <-]. constructor; [exact Hp | now apply IH].
        -- intros H. apply Forall2_cons_inv_l in H as (p' & ps'' & Hp' & H & ->).
           apply IH in H. congruence.
      * split; [discriminate|]. intros H.
        apply Forall2_cons_inv_l in H as (p' & ps'' & _ & H & _).
        apply IH in H. discriminate.
      * split; [discriminate|]. intros H.
        apply Forall2_cons_inv_l in H as (p' & ps'' & _ & H & _).
        apply IH in H. discriminate.
    + split; [discriminate|]. intros H.
      apply Forall2_cons_inv_l in H as (p' & ps'' & Hp' & _). congruence.
    + split; [discriminate|]. intros H.
      apply Forall2_cons_inv_l in H as (p' & ps'' & Hp' & _). congruence.
Qed.

Lemma load_all_raise (config : Config) (before after : list string)
    (n : string) (o s : bool) (e : exn) :
  Forall (fun m => exists p, load config (Some m) o s = Loaded p) before ->
  load config (Some n) o s = LoadRaise e ->
  load_all load config (before ++ n :: after) o s = LoadRaise e.
Proof.
  intros Hbefore Hn. induction Hbefore as [|m before [p Hp] _ IH];
    cbn [app load_all].
  - now rewrite Hn.
  - now rewrite Hp, IH.
Qed.

Lemma load_all_config_error (config : Config) (before after : list string)
    (n : string) (o s : bool) (msg : string) :
  Forall (fun m => exists p, load config (Some m) o s = Loaded p) before ->
  load config (Some n) o s = PipelineConfigError msg ->
  load_all load config (before ++ n :: after) o s = PipelineConfigError msg.
Proof.
  intros Hbefore Hn. induction Hbefore as [|m before [p Hp] _ IH];
    cbn [app load_all].
  - now rewrite Hn.
  - now rewrite Hp, IH.
Qed.

Lemma load_all_total (config : Config) (names : list string) (o s : bool) :
  Forall (fun m => exists p, load config (Some m) o s = Loaded p) names ->
  exists ps, load_all load config names o s = Loaded ps.
Proof.
  induction 1 as [|m names [p Hp] _ [ps IH]]; cbn [load_all]; [eauto|].
  rewrite Hp, IH. cbn. eauto.
Qed.

(** What the dictionary comprehension holds: under a name that is kept,
    the pipeline that goes with it. *)
Lemma tool_map_fold (keep : list string)
    (l : list (string * LoadedPipeline))
    (m : gmap string (string -> gmap string string)) (name : string)
    (r : string -> gmap string string) :
  fold_left
    (fun m (np : string * LoadedPipeline) =>
       if decide (fst np ∈ keep) then <[fst np := run_query (snd np)]> m
       else m) l m !! name = Some r ->
  m !! name = Some r
  \/ (name ∈ keep /\ exists p, In (name, p) l /\ r = run_query p).
Proof.
  revert m. induction l as [|[n p] l IH]; intros m H; [now left|].
  cbn [fold_left fst snd] in H. apply IH in H as [H|(Hk & q & Hq & ->)].
  - destruct (decide (n ∈ keep)) as [Hn|Hn]; [|now left].
    destruct (decide (n = name)) as [->|Hne].
    + rewrite lookup_insert_eq in H. injection H as <-.
      right. split; [exact Hn|]. exists p. split; [now left | reflexivity].
    + rewrite lookup_insert_ne in H by exact Hne. now left.
  - right. split; [exact Hk|]. exists q. split; [now right | reflexivity].
Qed.

Lemma tool_map_fold_some (keep : list string)
    (l : list (string * LoadedPipeline))
    (m : gmap string (string -> gmap string string)) (name : string) :
  is_Some (m !! name) \/ (name ∈ keep /\ exists p, In (name, p) l) ->
  is_Some (fold_left
             (fun m (np : string * LoadedPipeline) =>
                if decide (fst np ∈ keep)
                then <[fst np := run_query (snd np)]> m
                else m) l m !! name).
Proof.
  revert m. induction l as [|[n p] l IH]; intros m H.
  - destruct H as [H|(_ & q & [])]. exact H.
  - cbn [fold_left fst snd]. apply IH.
    destruct H as [H|(Hk & q & [[= -> ->]|Hq])].
    + left. destruct (decide (n ∈ keep)); [|exact H].
      destruct (decide (n = name)) as [->|Hne].
      * rewrite lookup_insert_eq. eauto.
      * now rewrite lookup_insert_ne.
    + left. destruct (decide (name ∈ keep)); [|contradiction].
      rewrite lookup_insert_eq. eauto.
    + right. split; [exact Hk|]. now exists q.
Qed.

Lemma in_combine_names (names : list string) (ps : list LoadedPipeline)
    (n : string) :
  length names = length ps -> In n names -> exists p, In (n, p) (combine names ps).
Proof.
  revert ps. induction names as [|m names IH]; intros [|p ps] Hlen Hin;
    cbn in *; try tauto; try discriminate.
  destruct Hin as [->|Hin]; [eauto|].
  destruct (IH ps ltac:(lia) Hin) as [q Hq]. eauto.
Qed.

Lemma in_combine_loaded (config : Config) (o s : bool) (names : list string)
    (ps : list LoadedPipeline) (n : string) (p : LoadedPipeline) :
  Forall2 (fun n p => load config (Some n) o s = Loaded p) names ps ->
  In (n, p) (combine names ps) ->
  load config (Some n) o s = Loaded p.
Proof.
  induction 1 as [|m q names ps Hq _ IH]; cbn; [tauto|].
  intros [[= -> ->]|H]; [exact Hq | now apply IH].
Qed.

(** What a successful [load_from_yaml] went through. *)
Lemma load_from_yaml_inv (path : string) (pipeline_name : option string)
    (o s : bool) (agent : MRKLAgent) :
  load_from_yaml read load path pipeline_name o s = Loaded agent ->
  exists config defs names ps mrkl_pipeline node,
    read path = Loaded config
    /\ pipelines config = Some defs
    /\ names_but defs pipeline_name = OK names
    /\ load_all load config names o s = Loaded ps
    /\ load config pipeline_name o s = Loaded mrkl_pipeline
    /\ agent_nodes (components mrkl_pipeline) = [node]
    /\ agent = {| tool_map := tool_map_of names ps (pipeline_names node);
                 prompt_node := prompt_node node;
                 pipeline_names := pipeline_names node |}.
Proof.
  unfold load_from_yaml.
  destruct (read path) as [config| |]; cbn [lbind]; try discriminate.
  destruct (pipelines config) as [defs|] eqn:Hdefs; cbn [lbind];
    try discriminate.
  destruct (names_but defs pipeline_name) as [names|e] eqn:Hnames;
    cbn [of_result lbind]; try discriminate.
  destruct (load_all load config names o s) as [ps| |] eqn:Hps; cbn [lbind];
    try discriminate.
  destruct (load config pipeline_name o s) as [mp| |] eqn:Hmp; cbn [lbind];
    try discriminate.
  destruct (agent_nodes (components mp)) as [|node [|node' nodes]] eqn:Hnodes;
    try discriminate.
  intros [= <-]. exists config, defs, names, ps, mp, node. now repeat split.
Qed.

(** X18.  The registry of an agent that [load_from_yaml] returns holds a
    tool under a name exactly when the agent lists that name in its
    [pipeline_names], the name is not that of the pipeline being loaded as
    the agent, and the configuration has a pipeline of that name; the tool
    is then the pipeline loaded from the configuration under that name.
    The other pipelines of the configuration are left out. *)
Theorem registry_of_loaded_agent (path : string)
    (pipeline_name : option string) (o s : bool) (agent : MRKLAgent) :
  load_from_yaml read load path pipeline_name o s = Loaded agent ->
  exists config defs,
    read path = Loaded config
    /\ pipelines config = Some defs
    /\ (forall name,
          is_Some (tool_map agent !! name)
          <-> In name (pipeline_names agent)
              /\ Some name <> pipeline_name
              /\ exists p, In p defs /\ p !! "name" = Some name)
    /\ (forall name r,
          tool_map agent !! name = Some r ->
          exists p, load config (Some name) o s = Loaded p
                    /\ r = run_query p).
Proof.
  intros H.
  destruct (load_from_yaml_inv _ _ _ _ _ H)
    as (config & defs & names & ps & mp & node
        & Hread & Hdefs & Hnames & Hps & _ & _ & ->).
  exists config, defs. split; [exact Hread|]. split; [exact Hdefs|].
  cbn [tool_map pipeline_names]. apply load_all_spec in Hps.
  pose proof (Forall2_length _ _ _ Hps) as Hlen.
  pose proof (names_but_spec _ _ _ Hnames) as Hin.
  unfold tool_map_of. split.
  - intros name. split.
    + intros [r Hr]. apply tool_map_fold in Hr as [Hr|(Hk & p & Hp & _)].
      * rewrite lookup_empty in Hr. discriminate.
      * apply list_elem_of_In in Hk. split; [exact Hk|].
        apply Hin. apply in_combine_l in Hp. exact Hp.
    + intros (Hk & Hne & Hp). apply tool_map_fold_some. right.
      split; [now apply list_elem_of_In|].
      apply in_combine_names; [exact Hlen|]. apply Hin. now split.
  - intros name r Hr. apply tool_map_fold in Hr as [Hr|(_ & p & Hp & ->)].
    + rewrite lookup_empty in Hr. discriminate.
    + exists p. split; [|reflexivity].
      now apply (in_combine_loaded config o s names ps).
Qed.

(** X19.  When the configuration is read and all its pipelines load,
    [load_from_yaml] returns an agent exactly when the pipeline loaded as
    the agent has one agent node, and the agent returned then has the
    model and the tool names of that node; with no agent node, and with
    more than one, it raises [PipelineConfigError], with a message for
    each case. *)
Theorem one_agent_node (path : string) (pipeline_name : option string)
    (o s : bool) (config : Config) (defs : list (gmap string string))
    (names : list string) (mrkl_pipeline : LoadedPipeline) :
  read path = Loaded config ->
  pipelines config = Some defs ->
  names_but defs pipeline_name = OK names ->
  Forall (fun n => exists p, load config (Some n) o s = Loaded p) names ->
  load config pipeline_name o s = Loaded mrkl_pipeline ->
  match agent_nodes (components mrkl_pipeline) with
  | [] =>
      load_from_yaml read load path pipeline_name o s
      = PipelineConfigError (no_agent_msg pipeline_name)
  | [node] =>
      exists agent,
        load_from_yaml read load path pipeline_name o s = Loaded agent
        /\ prompt_node agent = prompt_node node
        /\ pipeline_names agent = pipeline_names node
  | _ :: _ :: _ =>
      load_from_yaml read load path pipeline_name o s
      = PipelineConfigError (many_agents_msg pipeline_name)
  end
  /\ no_agent_msg pipeline_name <> many_agents_msg pipeline_name.
Proof.
  intros Hread Hdefs Hnames Hall Hmp.
  destruct (load_all_total config names o s Hall) as [ps Hps].
  unfold load_from_yaml. rewrite Hread. cbn [lbind]. rewrite Hdefs.
  cbn [lbind]. rewrite Hnames. cbn [of_result lbind]. rewrite Hps.
  cbn [lbind]. rewrite Hmp. cbn [lbind]. split.
  - destruct (agent_nodes (components mrkl_pipeline)) as [|node [|node' nodes]];
      try reflexivity.
    eexists. split; [reflexivity|]. now split.
  - unfold no_agent_msg, many_agents_msg. intros H.
    do 2 apply String.app_inj in H. discriminate.
Qed.

(** X20.  Every pipeline of the configuration other than the agent's is
    loaded before the agent is looked at: when one of them is not loaded,
    the ones before it being loaded, [load_from_yaml] returns no agent and
    fails as the loading of that pipeline failed -- with its
    [PipelineConfigError] or with the other exception that it raised --
    whether or not the agent names that pipeline among its tools. *)
Theorem any_pipeline_failure_aborts (path : string)
    (pipeline_name : option string) (o s : bool) (config : Config)
    (defs : list (gmap string string)) (before after : list string)
    (n : string) :
  read path = Loaded config ->
  pipelines config = Some defs ->
  names_but defs pipeline_name = OK (before ++ n :: after) ->
  Forall (fun m => exists p, load config (Some m) o s = Loaded p) before ->
  (forall p, load config (Some n) o s <> Loaded p) ->
  (forall agent,
      load_from_yaml read load path pipeline_name o s <> Loaded agent)
  /\ (forall msg,
        load config (Some n) o s = PipelineConfigError msg ->
        load_from_yaml read load path pipeline_name o s
        = PipelineConfigError msg)
  /\ (forall e,
        load config (Some n) o s = LoadRaise e ->
        load_from_yaml read load path pipeline_name o s = LoadRaise e).
Proof.
  intros Hread Hdefs Hnames Hbefore Hn.
  assert (Hmsg : forall msg,
             load config (Some n) o s = PipelineConfigError msg ->
             load_from_yaml read load path pipeline_name o s
             = PipelineConfigError msg).
  { intros msg Hload. unfold load_from_yaml. rewrite Hread. cbn [lbind].
    rewrite Hdefs. cbn [lbind]. rewrite Hnames. cbn [of_result lbind].
    now rewrite (load_all_config_error config before after n o s msg
                   Hbefore Hload). }
  assert (He : forall e,
             load config (Some n) o s = LoadRaise e ->
             load_from_yaml read load path pipeline_name o s = LoadRaise e).
  { intros e Hload. unfold load_from_yaml. rewrite Hread. cbn [lbind].
    rewrite Hdefs. cbn [lbind]. rewrite Hnames. cbn [of_result lbind].
    now rewrite (load_all_raise config before after n o s e Hbefore Hload). }
  split; [|split; assumption].
  intros agent Hagent.
  destruct (load config (Some n) o s) as [p|msg|e] eqn:Hload.
  - now apply (Hn p).
  - rewrite (Hmsg msg eq_refl) in Hagent. discriminate.
  - rewrite (He e eq_refl) in Hagent. discriminate.
Qed.

End LoadingFacts.

Lemma registry_of_loaded_agent_witness :
  exists agent,
    Loading.load_from_yaml Loading.sample_read Loading.sample_load
      "agent.yml" (Some "agent") true false = Loading.Loaded agent
    /\ is_Some (MRKL.tool_map agent !! "Calculator")
    /\ ~ is_Some (MRKL.tool_map agent !! "Search")
    /\ ~ is_Some (MRKL.tool_map agent !! "Translator").
Proof.
  destruct (Loading.load_from_yaml Loading.sample_read Loading.sample_load
              "agent.yml" (Some "agent") true false) as [agent| |] eqn:Hrun;
    try (vm_compute in Hrun; discriminate).
  exists agent. split; [reflexivity|].
  destruct (registry_of_loaded_agent Loading.sample_read Loading.sample_load
              _ _ _ _ _ Hrun) as (config & defs & Hread & Hdefs & Hdom & _).
  injection Hread as <-. injection Hdefs as <-.
  assert (Hnames : MRKL.pipeline_names agent = ["Calculator"; "Translator"]).
  { vm_compute in Hrun. injection Hrun as <-. reflexivity. }
  rewrite !Hdom, Hnames. split; [|split].
  - split; [cbn; tauto|]. split; [discriminate|].
    exists (Loading.named "Calculator"). split; [cbn; tauto | reflexivity].
  - intros ([[=]|[[=]|[]]] & _).
  - intros (_ & _ & p & [<-|[<-|[<-|[]]]] & Hp); vm_compute in Hp; discriminate.
Defined.

Lemma one_agent_node_witness :
  exists agent,
    Loading.load_from_yaml Loading.sample_read Loading.sample_load
      "agent.yml" (Some "agent") true false = Loading.Loaded agent
    /\ MRKL.pipeline_names agent = ["Calculator"; "Translator"].
Proof.
  destruct (one_agent_node Loading.sample_read Loading.sample_load
              "agent.yml" (Some "agent") true false Loading.sample_config
              [Loading.named "Calculator"; Loading.named "Search";
               Loading.named "agent"]
              ["Calculator"; "Search"]
              {| Loading.components :=
                   [Loading.OtherNode;
                    Loading.AgentNode Loading.sample_agent_node];
                 Loading.run_query := fun _ => ∅ |})
    as [(agent & Hrun & _ & Hnames) _]; try reflexivity.
  - repeat constructor; eexists; reflexivity.
  - exists agent. split; [exact Hrun | exact Hnames].
Defined.

Lemma any_pipeline_failure_aborts_witness :
  Loading.load_from_yaml Loading.sample_read Loading.misconfigured_load
    "agent.yml" (Some "agent") true false
  = Loading.PipelineConfigError "Cannot find node 'Retriever'"
  /\ Loading.load_from_yaml Loading.sample_read Loading.failing_load
       "agent.yml" (Some "agent") true false
     = Loading.LoadRaise (ValueError "no such component").
Proof.
  split.
  - apply (any_pipeline_failure_aborts Loading.sample_read
             Loading.misconfigured_load
             "agent.yml" (Some "agent") true false Loading.sample_config
             [Loading.named "Calculator"; Loading.named "Search";
              Loading.named "agent"]
             ["Calculator"] [] "Search");
      try reflexivity.
    + repeat constructor. eexists. reflexivity.
    + discriminate.
  - apply (any_pipeline_failure_aborts Loading.sample_read
             Loading.failing_load
             "agent.yml" (Some "agent") true false Loading.sample_config
             [Loading.named "Calculator"; Loading.named "Search";
              Loading.named "agent"]
             ["Calculator"] [] "Search");
      try reflexivity.
    + repeat constructor. eexists. reflexivity.
    + discriminate.
Defined.
